(** * ScriptGrab whisper engine: the sidecar protocol and its orchestration

    A shallow embedding of [whisper-engine/protocol.py] and
    [whisper-engine/engine.py], and of [get_platform_suffix] of
    [whisper-engine/build.py].

    Modelling conventions.
    - A Python [str] is a [string]; every character is read as a code point
      below 256.
    - A Python [int] is a [Z].  The timestamps and durations that are only
      rounded and printed are exact rationals [Q].  The floats of the
      progress callback, whose product is cut to an integer, are binary64
      ([PrimFloat]): every quotient and product is rounded as the interpreter
      rounds it, and [int] fails on an infinity or a NaN.
    - The dictionaries handed to [json.dumps] are association lists ([JDict]);
      the line [json.dumps] prints is identified with the value it encodes.
    - The process is a record: the object bound to [sys.stdout], what was
      written to the two file descriptors and the history of calls made into
      the external libraries.  Code runs in a state monad in which an
      exception leaves the state reached so far in place.
    - The external libraries (whisper-timestamped, torch, the file system) are
      a record of collaborators.  A call writes some text to [sys.stdout] and
      then returns a value, raises an [Exception] or is cut short by the
      user's interrupt ([KeyboardInterrupt]); the interrupt is taken where
      the process blocks, inside those calls.
    - A run starts from the parsed command line: [argparse] is outside the
      model.  The import of whisper-timestamped at the top of the module is
      modelled apart, as [import_whisper]. *)

From Stdlib Require Import ZArith QArith Qround Qabs Lqa.
From Stdlib Require Import String Ascii List Sorted Lia Bool.
From Stdlib Require Import PrimFloat FloatOps SpecFloat.
Import ListNotations.

Local Open Scope string_scope.
Local Open Scope Z_scope.

(** ** Python builtins used by the engine *)

Module Py.

(** [dict.get(key, default)] on an optional entry. *)
Definition get {A : Type} (entry : option A) (default : A) : A :=
  match entry with
  | Some v => v
  | None => default
  end.

(** *** [str(int)] and the format specification [04d] *)

Definition digit (d : Z) : ascii := ascii_of_nat (48 + Z.to_nat d).

Fixpoint digits_of (fuel : nat) (n : Z) (acc : string) : string :=
  match fuel with
  | O => acc
  | S fuel' =>
      let acc' := String (digit (n mod 10)) acc in
      if n <? 10 then acc' else digits_of fuel' (n / 10) acc'
  end.

(** The decimal digits of a non-negative integer, most significant first. *)
Definition decimal (n : Z) : string := digits_of (S (Z.to_nat n)) n "".

Definition str_of_int (i : Z) : string :=
  if i <? 0 then "-" ++ decimal (Z.abs i) else decimal i.

Fixpoint zeros (k : nat) : string :=
  match k with
  | O => ""
  | S k' => String "0" (zeros k')
  end.

(** [format(i, "04d")]: sign first, then zeros up to a total width of 4. *)
Definition format_04d (i : Z) : string :=
  if i <? 0
  then "-" ++ zeros (3 - String.length (decimal (Z.abs i))) ++ decimal (Z.abs i)
  else zeros (4 - String.length (decimal i)) ++ decimal i.

(** *** [str.strip()] *)

(** [str.isspace] on the code points below 256. *)
Definition isspace (c : ascii) : bool :=
  let n := N_of_ascii c in
  (((9 <=? n) && (n <=? 13)) || ((28 <=? n) && (n <=? 32))
   || (n =? 133) || (n =? 160))%N.

Fixpoint lstrip_chars (l : list ascii) : list ascii :=
  match l with
  | [] => []
  | c :: r => if isspace c then lstrip_chars r else l
  end.

Definition rstrip_chars (l : list ascii) : list ascii :=
  rev (lstrip_chars (rev l)).

Definition strip (s : string) : string :=
  string_of_list_ascii (rstrip_chars (lstrip_chars (list_ascii_of_string s))).

(** *** [round(x, 3)] on timestamps and the value of a binary64 float *)

(** Nearest integer, ties to the even one. *)
Definition round_half_even (q : Q) : Z :=
  let f := Qfloor q in
  match (q - inject_Z f ?= 1 # 2)%Q with
  | Lt => f
  | Gt => f + 1
  | Eq => if Z.even f then f else f + 1
  end.

(** [round(x, 3)]. *)
Definition round3 (x : Q) : Q := round_half_even (x * 1000) # 1000.

(** The number a float stands for; none for an infinity or a NaN. *)
Definition exact (x : float) : option Q :=
  match Prim2SF x with
  | S754_zero _ => Some 0%Q
  | S754_finite sign m e =>
      let n := if sign then Z.neg m else Z.pos m in
      Some (if e <? 0 then n # Z.to_pos (2 ^ (- e)) else inject_Z (n * 2 ^ e))
  | S754_infinity _ => None
  | S754_nan => None
  end.

(** Truncation towards zero. *)
Definition truncate (x : Q) : Z := Z.quot (Qnum x) (Z.pos (Qden x)).

(** *** Exceptions *)

Inductive BaseException : Type :=
| Exception (str_e : string)
| KeyboardInterrupt
| SystemExit (code : Z).

End Py.

(** ** The process and the monad of effects *)

(** A Python value that [json.dumps] accepts. *)
#[local] Unset Elimination Schemes.
Inductive json : Type :=
| JInt (z : Z)
| JFloat (q : Q)
| JStr (s : string)
| JList (l : list json)
| JDict (items : list (string * json)).
#[local] Set Elimination Schemes.

(** What reaches a file descriptor: a line printed by [ProtocolEmitter._emit]
    or text written by a library. *)
Inductive chunk : Type :=
| Line (message : json)
| Text (text : string).

(** The objects [sys.stdout] is bound to during a run. *)
Inductive writer : Type :=
| OriginalStdout
| StderrRedirector.

(** The external calls of [transcribe_audio], in program order. *)
Inductive callsite : Type :=
| ProbeAudio
| CudaIsAvailable
| LoadModel
| LoadAudio
| Transcribe.

Inductive ending : Type :=
| Returned
| Failed
| Interrupted.

Record process : Type := {
  sys_stdout : writer;
  stdout : list chunk;
  stderr : list chunk;
  history : list (callsite * ending)
}.

(** The process when [transcribe_audio] starts: the module has put
    [sys.stdout] back after its imports. *)
Definition boot : process :=
  {| sys_stdout := OriginalStdout; stdout := []; stderr := []; history := [] |}.

Inductive result (A : Type) : Type :=
| Ok (a : A)
| Raise (e : Py.BaseException).
Arguments Ok {A} a.
Arguments Raise {A} e.

Definition M (A : Type) : Type := process -> result A * process.

Definition ret {A : Type} (a : A) : M A := fun p => (Ok a, p).

Definition bind {A B : Type} (c : M A) (k : A -> M B) : M B :=
  fun p =>
    match c p with
    | (Ok a, p') => k a p'
    | (Raise e, p') => (Raise e, p')
    end.

Definition raise {A : Type} (e : Py.BaseException) : M A :=
  fun p => (Raise e, p).

Declare Scope py_scope.
Delimit Scope py_scope with py.
Notation "x <- c ;; k" := (bind c (fun x => k))
  (at level 61, c at next level, right associativity) : py_scope.
Notation "c ;; k" := (bind c (fun _ => k))
  (at level 61, right associativity) : py_scope.
Local Open Scope py_scope.

(** [try: body finally: cleanup]. *)
Definition try_finally {A : Type} (body : M A) (cleanup : M unit) : M A :=
  fun p =>
    match body p with
    | (r, p') =>
        match cleanup p' with
        | (Ok _, p'') => (r, p'')
        | (Raise e, p'') => (Raise e, p'')
        end
    end.

(** [try: body except ...: handler]; [handler e = None] when no clause
    matches [e]. *)
Definition try_except {A : Type} (body : M A)
    (handler : Py.BaseException -> option (M A)) : M A :=
  fun p =>
    match body p with
    | (Ok a, p') => (Ok a, p')
    | (Raise e, p') =>
        match handler e with
        | Some h => h p'
        | None => (Raise e, p')
        end
    end.

(** [sys.exit(code)]. *)
Definition sys_exit {A : Type} (code : Z) : M A := raise (Py.SystemExit code).

Definition get_sys_stdout : M writer := fun p => (Ok (sys_stdout p), p).

Definition rebound (w : writer) (p : process) : process :=
  {| sys_stdout := w; stdout := stdout p; stderr := stderr p;
     history := history p |}.

(** [sys.stdout = w]. *)
Definition set_sys_stdout (w : writer) : M unit :=
  fun p => (Ok tt, rebound w p).

(** The process after [cs] went through the object bound to [sys.stdout]:
    the original stream writes to the standard output,
    [StderrRedirector.write] to the standard error. *)
Definition written (cs : list chunk) (p : process) : process :=
  match sys_stdout p with
  | OriginalStdout =>
      {| sys_stdout := sys_stdout p; stdout := (stdout p ++ cs)%list;
         stderr := stderr p; history := history p |}
  | StderrRedirector =>
      {| sys_stdout := sys_stdout p; stdout := stdout p;
         stderr := (stderr p ++ cs)%list; history := history p |}
  end.

Definition write (c : chunk) : M unit := fun p => (Ok tt, written [c] p).

Fixpoint write_all (texts : list string) : M unit :=
  match texts with
  | [] => ret tt
  | t :: rest => write (Text t) ;; write_all rest
  end.

Fixpoint for_each {A : Type} (l : list A) (body : A -> M unit) : M unit :=
  match l with
  | [] => ret tt
  | a :: rest => body a ;; for_each rest body
  end.

(** [enumerate(l)], counting from [start]. *)
Fixpoint enumerate_from {A : Type} (start : Z) (l : list A) : list (Z * A) :=
  match l with
  | [] => []
  | a :: rest => (start, a) :: enumerate_from (start + 1) rest
  end.

Definition enumerate {A : Type} (l : list A) : list (Z * A) :=
  enumerate_from 0 l.

(** *** Calls into the external libraries *)

Inductive outcome (A : Type) : Type :=
| Returns (a : A)
| Fails (str_e : string)
| KeyboardInterrupted.
Arguments Returns {A} a.
Arguments Fails {A} str_e.
Arguments KeyboardInterrupted {A}.

Record call (A : Type) : Type := {
  noise : list string;
  result_of : outcome A
}.
Arguments noise {A} c.
Arguments result_of {A} c.

Definition logged (site : callsite) (e : ending) (p : process) : process :=
  {| sys_stdout := sys_stdout p; stdout := stdout p; stderr := stderr p;
     history := (history p ++ [(site, e)])%list |}.

Definition log (site : callsite) (e : ending) : M unit :=
  fun p => (Ok tt, logged site e p).

Definition external {A : Type} (site : callsite) (c : call A) : M A :=
  write_all (noise c) ;;
  match result_of c with
  | Returns a => log site Returned ;; ret a
  | Fails msg => log site Failed ;; raise (Py.Exception msg)
  | KeyboardInterrupted => log site Interrupted ;; raise Py.KeyboardInterrupt
  end.

(** ** [protocol.py]: the message emitter *)

Module ProtocolEmitter.

(** [print(json.dumps(message), flush=True)]. *)
Definition _emit (message : json) : M unit := write (Line message).

Definition progress (percent : Z) (status : string) : M unit :=
  _emit (JDict [("type", JStr "progress");
                ("percent", JInt (Z.max 0 (Z.min 100 percent)));
                ("status", JStr status)]).

Definition segment_dict (segment_dict : json) : M unit :=
  _emit (JDict [("type", JStr "segment"); ("data", segment_dict)]).

Definition complete (language : string) (duration : Q) : M unit :=
  _emit (JDict [("type", JStr "complete");
                ("language", JStr language);
                ("duration", JFloat (Py.round3 duration))]).

Definition error (message : string) : M unit :=
  _emit (JDict [("type", JStr "error"); ("message", JStr message)]).

End ProtocolEmitter.

Definition emit_progress := ProtocolEmitter.progress.
Definition emit_segment_dict := ProtocolEmitter.segment_dict.
Definition emit_complete := ProtocolEmitter.complete.
Definition emit_error := ProtocolEmitter.error.

(** ** [engine.py] *)

(** What whisper-timestamped returns: dictionaries in which any key may be
    missing. *)
Record RawWord : Type := {
  word_text : option string;
  word_start : option Q;
  word_end : option Q
}.

Record RawSegment : Type := {
  seg_start : option Q;
  seg_end : option Q;
  seg_text : option string;
  seg_words : option (list RawWord)
}.

Record Transcription : Type := {
  res_language : option string;
  res_segments : option (list RawSegment)
}.

(** The samples of the decoded audio, at 16 kHz. *)
Definition Audio : Type := list Q.

(** The handle [whisper.load_model] returns. *)
Inductive Model : Type :=
| LoadedModel (model_size device : string).

Definition format_word (word_data : RawWord) : json :=
  JDict [("word", JStr (Py.strip (Py.get (word_text word_data) "")));
         ("start", JFloat (Py.round3 (Py.get (word_start word_data) 0%Q)));
         ("end", JFloat (Py.round3 (Py.get (word_end word_data) 0%Q)))].

Definition format_segment (segment : RawSegment) (segment_index : Z) : json :=
  let segment_id := "seg_" ++ Py.format_04d segment_index in
  let words :=
    match seg_words segment with
    | Some ws => map format_word ws
    | None => []
    end in
  JDict [("id", JStr segment_id);
         ("start", JFloat (Py.round3 (Py.get (seg_start segment) 0%Q)));
         ("end", JFloat (Py.round3 (Py.get (seg_end segment) 0%Q)));
         ("text", JStr (Py.strip (Py.get (seg_text segment) "")));
         ("words", JList words)].

(** The libraries and the file system as one run meets them.  The two calls
    of [whisper.load_audio] are separate fields: the second may end
    differently from the first. *)
Record Collaborators : Type := {
  path_exists : string -> bool;
  probe_audio : string -> call Audio;
  cuda_is_available : call bool;
  load_model : string -> string -> call Model;
  load_audio : string -> call Audio;
  transcribe : Model -> Audio -> call Transcription
}.

(** The parsed command line. *)
Record Args : Type := {
  arg_audio_path : string;
  arg_model : string;
  arg_device : option string
}.

Section Engine.

Variable whisper : Collaborators.

Definition get_audio_duration (audio_path : string) : M Q :=
  try_except
    (audio <- external ProbeAudio (probe_audio whisper audio_path) ;;
     let duration := Z.of_nat (List.length audio) # 16000 in
     ret duration)
    (fun e =>
       match e with
       | Py.Exception _ => Some (ret 0%Q)
       | _ => None
       end).

Definition transcribe_audio_body
    (audio_path model_size : string) (device : option string) : M unit :=
  (if negb (path_exists whisper audio_path)
   then emit_error ("File not found: " ++ audio_path) ;; sys_exit 1
   else ret tt) ;;
  emit_progress 5 "Loading audio file..." ;;
  total_duration <- get_audio_duration audio_path ;;
  (if Qle_bool total_duration 0
   then emit_error "Could not determine audio duration" ;; sys_exit 1
   else ret tt) ;;
  emit_progress 10 ("Loading Whisper " ++ model_size ++ " model...") ;;
  device <- match device with
            | None =>
                cuda <- external CudaIsAvailable (cuda_is_available whisper) ;;
                ret (if cuda then "cuda" else "cpu")
            | Some d => ret d
            end ;;
  let _stderr_redirector := StderrRedirector in
  _temp_stdout <- get_sys_stdout ;;
  set_sys_stdout _stderr_redirector ;;
  model <- try_finally
             (external LoadModel (load_model whisper model_size device))
             (set_sys_stdout _temp_stdout) ;;
  emit_progress 20 "Model loaded, starting transcription..." ;;
  audio <- external LoadAudio (load_audio whisper audio_path) ;;
  _temp_stdout2 <- get_sys_stdout ;;
  set_sys_stdout _stderr_redirector ;;
  result <- try_finally
              (external Transcribe (transcribe whisper model audio))
              (set_sys_stdout _temp_stdout2) ;;
  emit_progress 90 "Processing segments..." ;;
  let detected_language := Py.get (res_language result) "unknown" in
  let segments := Py.get (res_segments result) [] in
  for_each (enumerate segments)
    (fun '(idx, segment) =>
       let formatted_segment := format_segment segment idx in
       emit_segment_dict formatted_segment) ;;
  emit_progress 100 "Transcription complete" ;;
  emit_complete detected_language total_duration.

Definition transcribe_audio
    (audio_path model_size : string) (device : option string) : M unit :=
  try_except (transcribe_audio_body audio_path model_size device)
    (fun e =>
       match e with
       | Py.KeyboardInterrupt =>
           Some (emit_error "Transcription cancelled by user" ;; sys_exit 130)
       | Py.Exception str_e => Some (emit_error str_e ;; sys_exit 1)
       | Py.SystemExit _ => None
       end).

(** [main] and the interpreter around it: the exit status and the process
    left behind. *)
Definition main (args : Args) (p : process) : Z * process :=
  match transcribe_audio (arg_audio_path args) (arg_model args)
          (arg_device args) p with
  | (Ok _, p') => (0, p')
  | (Raise (Py.SystemExit code), p') => (code, p')
  | (Raise Py.KeyboardInterrupt, p') => (130, p')
  | (Raise (Py.Exception _), p') => (1, p')
  end.

End Engine.

(** *** The progress callback *)

(** [int(x)] on a float: the value cut towards zero; [OverflowError] on an
    infinity, [ValueError] on a NaN. *)
Definition int (x : float) : M Z :=
  match Py.exact x with
  | Some value => ret (Py.truncate value)
  | None =>
      if PrimFloat.is_nan x
      then raise (Py.Exception "cannot convert float NaN to integer")
      else raise (Py.Exception "cannot convert float infinity to integer")
  end.

Record TranscriptionProgressCallback : Type := {
  total_duration : float;
  last_percent : Z
}.

Module Callback.

Definition __init__ (total_duration : float) : TranscriptionProgressCallback :=
  {| total_duration := total_duration; last_percent := 0 |}.

(** [self(current_time)]; the object after the call is returned. *)
Definition __call__ (self : TranscriptionProgressCallback)
    (current_time : float) : M TranscriptionProgressCallback :=
  if (0 <? total_duration self)%float
  then
    percent <- int ((current_time / total_duration self) * 100)%float ;;
    let percent := Z.min percent 99 in
    if percent >? last_percent self
    then
      let self := {| total_duration := total_duration self;
                     last_percent := percent |} in
      emit_progress percent
        ("Transcribing... " ++ Py.str_of_int percent ++ "%") ;;
      ret self
    else ret self
  else ret self.

(** The callback driven by a sequence of positions. *)
Fixpoint feed (self : TranscriptionProgressCallback) (signal : list float)
    : M TranscriptionProgressCallback :=
  match signal with
  | [] => ret self
  | current_time :: rest =>
      self' <- __call__ self current_time ;; feed self' rest
  end.

End Callback.

(** ** Reading the streams *)

(** The protocol messages among the chunks of a stream. *)
Fixpoint lines (cs : list chunk) : list json :=
  match cs with
  | [] => []
  | Line m :: rest => m :: lines rest
  | Text _ :: rest => lines rest
  end.

Fixpoint dict_get (key : string) (items : list (string * json))
    : option json :=
  match items with
  | [] => None
  | (k, v) :: rest => if String.eqb k key then Some v else dict_get key rest
  end.

Definition field (key : string) (m : json) : option json :=
  match m with
  | JDict items => dict_get key items
  | _ => None
  end.

Definition has_type (t : string) (m : json) : bool :=
  match field "type" m with
  | Some (JStr t') => String.eqb t' t
  | _ => false
  end.

Definition is_progress : json -> bool := has_type "progress".
Definition is_segment : json -> bool := has_type "segment".
Definition is_complete : json -> bool := has_type "complete".
Definition is_error : json -> bool := has_type "error".

(** A terminal message is a [Complete] or an [Error]. *)
Definition is_terminal (m : json) : bool := is_complete m || is_error m.

(** The four shapes of the wire protocol. *)
Definition progress_message (percent : Z) (status : string) : json :=
  JDict [("type", JStr "progress"); ("percent", JInt percent);
         ("status", JStr status)].

Definition segment_message (data : json) : json :=
  JDict [("type", JStr "segment"); ("data", data)].

Definition complete_message (language : string) (duration : Q) : json :=
  JDict [("type", JStr "complete"); ("language", JStr language);
         ("duration", JFloat duration)].

Definition error_message (message : string) : json :=
  JDict [("type", JStr "error"); ("message", JStr message)].

(** The percent values of the [Progress] messages, in order. *)
Fixpoint percents (ms : list json) : list Z :=
  match ms with
  | [] => []
  | m :: rest =>
      match is_progress m, field "percent" m with
      | true, Some (JInt pc) => pc :: percents rest
      | _, _ => percents rest
      end
  end.

(** [m] is a [Progress] message carrying the percentage [k]. *)
Definition has_percent (k : Z) (m : json) : bool :=
  match is_progress m, field "percent" m with
  | true, Some (JInt pc) => pc =? k
  | _, _ => false
  end.

(** The [start] values of the [Segment] messages, in order. *)
Fixpoint segment_starts (ms : list json) : list Q :=
  match ms with
  | [] => []
  | m :: rest =>
      match is_segment m, field "data" m with
      | true, Some data =>
          match field "start" data with
          | Some (JFloat q) => q :: segment_starts rest
          | _ => segment_starts rest
          end
      | _, _ => segment_starts rest
      end
  end.

(** One run of the sidecar: the exit status and the process it leaves. *)
Definition run (whisper : Collaborators) (args : Args) : Z * process :=
  main whisper args boot.

Definition exit_code (whisper : Collaborators) (args : Args) : Z :=
  fst (run whisper args).

Definition protocol_stream (whisper : Collaborators) (args : Args)
    : list chunk :=
  stdout (snd (run whisper args)).

Definition messages (whisper : Collaborators) (args : Args) : list json :=
  lines (protocol_stream whisper args).

(** The [Segment] messages for a list of raw segments, numbered from
    [start]. *)
Definition segment_messages_from (start : Z) (segments : list RawSegment)
    : list json :=
  map (fun '(idx, segment) => segment_message (format_segment segment idx))
      (enumerate_from start segments).

(** ** The vocabulary of the specification *)

(** *** The orchestrator's state machine

    The protocol messages, exit status and call history of the terminal
    states: Failed at validation, Failed while probing, Failed or Cancelled
    after [emitted] stage announcements, Complete. *)

Definition model_loaded : json :=
  progress_message 20 "Model loaded, starting transcription...".

Definition stage_progress (model_size : string) : list json :=
  [progress_message 5 "Loading audio file...";
   progress_message 10 ("Loading Whisper " ++ model_size ++ " model...");
   model_loaded].

Definition ending_eqb (a b : ending) : bool :=
  match a, b with
  | Returned, Returned | Failed, Failed | Interrupted, Interrupted => true
  | _, _ => false
  end.

(** Every call of the history returned, except the last, which ended as
    [how]. *)
Fixpoint returned_until (how : ending) (h : list (callsite * ending))
    : bool :=
  match h with
  | [] => false
  | (_, e) :: rest =>
      match rest with
      | [] => ending_eqb e how
      | _ :: _ => ending_eqb e Returned && returned_until how rest
      end
  end.

Definition all_returned (h : list (callsite * ending)) : bool :=
  forallb (fun c => ending_eqb (snd c) Returned) h.

Inductive run_shape (audio_path model_size : string)
    : list json -> Z -> list (callsite * ending) -> Prop :=
| NotFound :
    run_shape audio_path model_size
      [error_message ("File not found: " ++ audio_path)] 1 []
| Unreadable (how : ending) :
    how <> Interrupted ->
    run_shape audio_path model_size
      [progress_message 5 "Loading audio file...";
       error_message "Could not determine audio duration"]
      1 [(ProbeAudio, how)]
| Failure (emitted : nat) (str_e : string) (h : list (callsite * ending)) :
    (2 <= emitted <= 3)%nat ->
    returned_until Failed h = true ->
    run_shape audio_path model_size
      (firstn emitted (stage_progress model_size) ++ [error_message str_e])
      1 h
| Cancelled (emitted : nat) (h : list (callsite * ending)) :
    (1 <= emitted <= 3)%nat ->
    returned_until Interrupted h = true ->
    run_shape audio_path model_size
      (firstn emitted (stage_progress model_size)
       ++ [error_message "Transcription cancelled by user"])
      130 h
| Completed (segments : list RawSegment) (language : string) (duration : Q)
    (h : list (callsite * ending)) :
    all_returned h = true ->
    run_shape audio_path model_size
      (stage_progress model_size
       ++ progress_message 90 "Processing segments..."
       :: segment_messages_from 0 segments
       ++ [progress_message 100 "Transcription complete";
           complete_message language duration])
      0 h.

(** The model returned its segments in the order of the audio. *)
Definition chronological (segments : list RawSegment) : Prop :=
  Sorted Qle (map (fun s => Py.get (seg_start s) 0%Q) segments).

(** The process once the probing stage has been announced. *)
Definition probing : process :=
  written [Line (progress_message 5 "Loading audio file...")] boot.

(** *** Segment formatting *)

Definition is_digit (c : ascii) : bool :=
  let n := N_of_ascii c in ((48 <=? n) && (n <=? 57))%N.

Definition digit_value (c : ascii) : Z := Z.of_N (N_of_ascii c) - 48.

Fixpoint all_digits (s : string) : bool :=
  match s with
  | EmptyString => true
  | String c rest => is_digit c && all_digits rest
  end.

Fixpoint decimal_value_from (acc : Z) (s : string) : Z :=
  match s with
  | EmptyString => acc
  | String c rest => decimal_value_from (acc * 10 + digit_value c) rest
  end.

Definition decimal_value (s : string) : Z := decimal_value_from 0 s.

(** [id] is [seg_] followed by the index in decimal, padded with zeros to
    four digits: exactly four up to 9999, no padding beyond. *)
Definition is_segment_id (i : Z) (id : string) : Prop :=
  exists digits,
    id = "seg_" ++ digits
    /\ all_digits digits = true
    /\ decimal_value digits = i
    /\ (4 <= String.length digits)%nat
    /\ (i <= 9999 -> String.length digits = 4%nat)
    /\ ((4 < String.length digits)%nat ->
        forall rest, digits <> String "0" rest).

(** [r] has three decimal places and is within half a thousandth of [x]. *)
Definition to_3_decimals (x r : Q) : Prop :=
  (exists k : Z, r = k # 1000) /\ (Qabs (r - x) <= 1 # 2000)%Q.

(** A numeric field: the rounded entry, or 0.0 when the entry is missing. *)
Definition numeric_field (entry : option Q) (r : Q) : Prop :=
  match entry with
  | Some x => to_3_decimals x r
  | None => (r == 0)%Q
  end.

(** [t] is [s] without the white space at its two ends. *)
Definition trimmed_from (s t : string) : Prop :=
  exists l r,
    list_ascii_of_string s = (l ++ list_ascii_of_string t ++ r)%list
    /\ forallb Py.isspace l = true
    /\ forallb Py.isspace r = true
    /\ (forall c rest, list_ascii_of_string t = c :: rest ->
        Py.isspace c = false)
    /\ (forall c front, list_ascii_of_string t = (front ++ [c])%list ->
        Py.isspace c = false).

(** A text field: the trimmed entry, or the empty string when the entry is
    missing. *)
Definition text_field (entry : option string) (t : string) : Prop :=
  match entry with
  | Some s => trimmed_from s t
  | None => t = ""
  end.

Definition formatted_word (raw : RawWord) (w : json) : Prop :=
  exists word start end_,
    w = JDict [("word", JStr word); ("start", JFloat start);
               ("end", JFloat end_)]
    /\ text_field (word_text raw) word
    /\ numeric_field (word_start raw) start
    /\ numeric_field (word_end raw) end_.

(** *** The progress reporter, as the specification words it *)

Module ReporterSpec.

(** A percentage clamped to [0, 99]. *)
Definition clamp (x : Z) : Z := Z.max 0 (Z.min 99 x).

(** [floor(current / total * 100)], clamped to [0, 99], on the numbers the
    arguments stand for. *)
Definition percent (total current : Q) : Z :=
  clamp (Qfloor (current / total * 100)).

(** The same with the quotient and the product as binary64 rounds them;
    none when the product is an infinity or a NaN. *)
Definition percent64 (total current : float) : option Z :=
  match Py.exact ((current / total) * 100)%float with
  | Some product => Some (clamp (Qfloor product))
  | None => None
  end.

(** One computed percent: the new last emitted percent and the percent
    emitted, if any. *)
Definition step (last : Z) (pc : Z) : Z * list Z :=
  if last <? pc then (pc, [pc]) else (last, []).

Fixpoint emissions (last : Z) (computed : list Z) : Z * list Z :=
  match computed with
  | [] => (last, [])
  | pc :: rest =>
      let (last', now) := step last pc in
      let (last'', later) := emissions last' rest in
      (last'', (now ++ later)%list)
  end.

End ReporterSpec.

(** The message the callback prints for a percent. *)
Definition transcribing_message (pc : Z) : json :=
  progress_message pc ("Transcribing... " ++ Py.str_of_int pc ++ "%").

(** ** Sample runs *)

Definition quiet {A : Type} (a : A) : call A :=
  {| noise := []; result_of := Returns a |}.

(** A two second clip that the model transcribes into two segments, the
    second one starting before the first. *)
Definition studio : Collaborators := {|
  path_exists := fun _ => true;
  probe_audio := fun _ => quiet (repeat 0%Q (Z.to_nat 32000));
  cuda_is_available := quiet false;
  load_model := fun size device =>
    {| noise := ["loading"]; result_of := Returns (LoadedModel size device) |};
  load_audio := fun _ => quiet (repeat 0%Q (Z.to_nat 32000));
  transcribe := fun _ _ =>
    {| noise := ["100%"];
       result_of := Returns
         {| res_language := Some "en";
            res_segments := Some
              [ {| seg_start := Some (3 # 2); seg_end := Some (2 # 1);
                   seg_text := Some " world"; seg_words := None |};
                {| seg_start := Some (1 # 4); seg_end := Some (5 # 4);
                   seg_text := Some " hello "; seg_words := Some
                     [ {| word_text := Some " hello";
                          word_start := Some (1 # 4);
                          word_end := Some (5 # 4) |} ] |} ] |} |}
|}.

(** The same machine with nothing at the path asked for. *)
Definition empty_disk : Collaborators := {|
  path_exists := fun _ => false;
  probe_audio := probe_audio studio;
  cuda_is_available := cuda_is_available studio;
  load_model := load_model studio;
  load_audio := load_audio studio;
  transcribe := transcribe studio
|}.

(** The same machine with a file that cannot be decoded. *)
Definition corrupt_file : Collaborators := {|
  path_exists := fun _ => true;
  probe_audio := fun _ =>
    {| noise := []; result_of := Fails "Failed to load audio" |};
  cuda_is_available := cuda_is_available studio;
  load_model := load_model studio;
  load_audio := load_audio studio;
  transcribe := transcribe studio
|}.

Definition nope : Args :=
  {| arg_audio_path := "./nope.wav"; arg_model := "base";
     arg_device := None |}.

Definition clip : Args :=
  {| arg_audio_path := "clip.wav"; arg_model := "tiny";
     arg_device := Some "cpu" |}.

(** ** [protocol.py]: the dataclasses *)

Module Word.

Record t : Type := {
  word : string;
  start : Q;
  end_ : Q
}.

Definition to_dict (self : t) : json :=
  JDict [("word", JStr (word self));
         ("start", JFloat (Py.round3 (start self)));
         ("end", JFloat (Py.round3 (end_ self)))].

End Word.

Module Segment.

Record t : Type := {
  id : string;
  start : Q;
  end_ : Q;
  text : string;
  words : list Word.t
}.

Definition to_dict (self : t) : json :=
  JDict [("id", JStr (id self));
         ("start", JFloat (Py.round3 (start self)));
         ("end", JFloat (Py.round3 (end_ self)));
         ("text", JStr (text self));
         ("words", JList (map Word.to_dict (words self)))].

End Segment.

(** [ProtocolEmitter.segment]. *)
Definition emit_segment (segment_data : Segment.t) : M unit :=
  ProtocolEmitter._emit
    (JDict [("type", JStr "segment");
            ("data", Segment.to_dict segment_data)]).

(** The dataclasses filled from what whisper-timestamped returns, with the
    defaults and the stripping of [format_segment]. *)
Definition as_word (word_data : RawWord) : Word.t :=
  {| Word.word := Py.strip (Py.get (word_text word_data) "");
     Word.start := Py.get (word_start word_data) 0%Q;
     Word.end_ := Py.get (word_end word_data) 0%Q |}.

Definition as_segment (segment : RawSegment) (segment_index : Z)
    : Segment.t :=
  {| Segment.id := "seg_" ++ Py.format_04d segment_index;
     Segment.start := Py.get (seg_start segment) 0%Q;
     Segment.end_ := Py.get (seg_end segment) 0%Q;
     Segment.text := Py.strip (Py.get (seg_text segment) "");
     Segment.words := map as_word (Py.get (seg_words segment) []) |}.

(** ** [engine.py]: the import of the libraries *)

(** The import of a module: what it prints goes through [sys.stdout], then
    it succeeds or its exception comes out. *)
Definition importing {A : Type} (module : call A) : M A :=
  write_all (noise module) ;;
  match result_of module with
  | Returns a => ret a
  | Fails msg => raise (Py.Exception msg)
  | KeyboardInterrupted => raise Py.KeyboardInterrupt
  end.

(** Lines 50 to 57 of the module. *)
Definition import_whisper (whisper_timestamped : call unit) : M unit :=
  _original_stdout <- get_sys_stdout ;;
  set_sys_stdout StderrRedirector ;;
  try_finally (importing whisper_timestamped)
    (set_sys_stdout _original_stdout).

(** The module run as a script, once the command line is parsed: the import
    at the top of the module, then [transcribe_audio] as [main] calls it. *)
Definition engine_script (whisper_timestamped : call unit)
    (whisper : Collaborators) (args : Args) : M unit :=
  import_whisper whisper_timestamped ;;
  transcribe_audio whisper (arg_audio_path args) (arg_model args)
    (arg_device args).

(** ** [build.py] *)

(** [str.lower] on the code points below 256. *)
Definition lower_char (c : ascii) : ascii :=
  let n := N_of_ascii c in
  if (((65 <=? n) && (n <=? 90))
      || ((192 <=? n) && (n <=? 222) && negb (n =? 215)))%N
  then ascii_of_N (n + 32)
  else c.

Fixpoint lower (s : string) : string :=
  match s with
  | EmptyString => EmptyString
  | String c rest => String (lower_char c) (lower rest)
  end.

(** [get_platform_suffix], from what [platform.system()] and
    [platform.machine()] return. *)
Definition get_platform_suffix (platform_system platform_machine : string)
    : string :=
  let system := lower platform_system in
  let machine := lower platform_machine in
  if String.eqb system "windows" then
    if String.eqb machine "amd64" || String.eqb machine "x86_64"
    then "x86_64-pc-windows-msvc"
    else if String.eqb machine "arm64" || String.eqb machine "aarch64"
    then "aarch64-pc-windows-msvc"
    else "unknown"
  else if String.eqb system "darwin" then
    if String.eqb machine "arm64" || String.eqb machine "aarch64"
    then "aarch64-apple-darwin"
    else "x86_64-apple-darwin"
  else if String.eqb system "linux" then
    if String.eqb machine "arm64" || String.eqb machine "aarch64"
    then "aarch64-unknown-linux-gnu"
    else "x86_64-unknown-linux-gnu"
  else "unknown".

(** ** Reading the streams, continued *)

(** The ids of the [Segment] messages, in order. *)
Fixpoint segment_ids (ms : list json) : list string :=
  match ms with
  | [] => []
  | m :: rest =>
      match is_segment m, field "data" m with
      | true, Some data =>
          match field "id" data with
          | Some (JStr i) => i :: segment_ids rest
          | _ => segment_ids rest
          end
      | _, _ => segment_ids rest
      end
  end.

(** The process [p] after a computation appended [o] to the standard
    output, [e] to the standard error and [h] to the history, and left
    [sys.stdout] bound to [w]. *)
Definition extended (w : writer) (o e : list chunk)
    (h : list (callsite * ending)) (p : process) : process :=
  {| sys_stdout := w; stdout := (stdout p ++ o)%list;
     stderr := (stderr p ++ e)%list; history := (history p ++ h)%list |}.

(** A computation that only appends: its result, the object it leaves
    [sys.stdout] bound to and what it appends depend on nothing but the
    binding of [sys.stdout] it starts from. *)
Definition appends {A : Type} (c : M A) : Prop :=
  forall w0, exists r w1 o e h,
    forall p, sys_stdout p = w0 -> c p = (r, extended w1 o e h p).

(** A machine whose model file cannot be read. *)
Definition broken_model : Collaborators := {|
  path_exists := fun _ => true;
  probe_audio := fun _ => quiet [0%Q; 0%Q];
  cuda_is_available := quiet false;
  load_model := fun _ _ =>
    {| noise := ["Traceback"]; result_of := Fails "CUDA out of memory" |};
  load_audio := fun _ => quiet [0%Q; 0%Q];
  transcribe := transcribe studio
|}.

(** A library that prints a banner when it is imported. *)
Definition chatty_import : call unit :=
  {| noise := ["Importing the dtw module"]; result_of := Returns tt |}.

(** Two processes a reader of the streams cannot tell apart: the same
    binding of [sys.stdout], the same protocol messages on the standard
    output and the same standard error. *)
Definition agree (p q : process) : Prop :=
  sys_stdout p = sys_stdout q
  /\ lines (stdout p) = lines (stdout q)
  /\ stderr p = stderr q.

Definition same_outcome {A : Type} (x y : result A * process) : Prop :=
  fst x = fst y /\ agree (snd x) (snd y).

(** A computation that leaves [sys.stdout] bound to what it found. *)
Definition keeps_writer {A : Type} (c : M A) : Prop :=
  forall p, sys_stdout (snd (c p)) = sys_stdout p.

(** * Proofs *)

(** ** Running the engine *)

Lemma written_nil p : written [] p = p.
Proof.
  destruct p as [w o e h]; destruct w; unfold written; simpl;
    now rewrite app_nil_r.
Qed.

Lemma written_app a b p :
  written (a ++ b)%list p = written b (written a p).
Proof.
  destruct p as [w o e h]; destruct w; unfold written; simpl;
    now rewrite app_assoc.
Qed.

Lemma write_all_run texts p :
  write_all texts p = (Ok tt, written (map Text texts) p).
Proof.
  revert p; induction texts as [|t rest IH]; intro p; simpl.
  - unfold ret. now rewrite written_nil.
  - unfold bind, write. rewrite IH. now rewrite <- written_app.
Qed.

(** A call into a library: its noise goes through [sys.stdout], its ending
    is recorded, its result or exception is handed on. *)
Lemma external_run {A : Type} (site : callsite) (c : call A) p :
  external site c p =
  match result_of c with
  | Returns a =>
      (Ok a, logged site Returned (written (map Text (noise c)) p))
  | Fails msg =>
      (Raise (Py.Exception msg),
       logged site Failed (written (map Text (noise c)) p))
  | KeyboardInterrupted =>
      (Raise Py.KeyboardInterrupt,
       logged site Interrupted (written (map Text (noise c)) p))
  end.
Proof.
  unfold external, bind. rewrite write_all_run. now destruct (result_of c).
Qed.

(** The loop over the segments writes their messages in order. *)
Lemma emit_segments_run segments : forall start p,
  for_each (enumerate_from start segments)
      (fun '(idx, segment) =>
         let formatted_segment := format_segment segment idx in
         emit_segment_dict formatted_segment) p
  = (Ok tt, written (map Line (segment_messages_from start segments)) p).
Proof.
  induction segments as [|s rest IH]; intros start p; simpl.
  - unfold ret. now rewrite written_nil.
  - unfold bind at 1.
    unfold emit_segment_dict at 1, ProtocolEmitter.segment_dict,
      ProtocolEmitter._emit, write.
    rewrite IH. unfold segment_messages_from. simpl.
    change (Line (segment_message (format_segment s start)) :: ?l)
      with ([Line (segment_message (format_segment s start))] ++ l)%list.
    now rewrite written_app.
Qed.

(** Symbolic execution of a run: unfold the engine down to the next call
    into a collaborator, split on how that call ends, and go on. *)
Ltac unfold_engine :=
  cbv beta iota zeta delta
    [run exit_code protocol_stream messages main transcribe_audio
     transcribe_audio_body get_audio_duration
     bind ret raise sys_exit try_except try_finally
     get_sys_stdout set_sys_stdout write log
     emit_error emit_progress emit_complete emit_segment_dict
     ProtocolEmitter.error ProtocolEmitter.progress ProtocolEmitter.complete
     ProtocolEmitter.segment_dict ProtocolEmitter._emit
     written logged rebound boot enumerate
     arg_audio_path arg_model arg_device
     sys_stdout stdout stderr history fst snd negb
     Z.max Z.min Z.compare Pos.compare Pos.compare_cont].

Ltac split_world :=
  first
  [ rewrite external_run;
    match goal with
    | |- context [result_of ?c] => destruct (result_of c) eqn:?
    end
  | rewrite emit_segments_run
  | match goal with
    | |- context [Qle_bool 0 0] => change (Qle_bool 0 0) with true
    | |- context [Qle_bool ?a ?b] => destruct (Qle_bool a b) eqn:?
    end
  | match goal with
    | |- context [path_exists ?w ?a] => destruct (path_exists w a) eqn:?
    end
  | match goal with
    | |- context [match ?d with Some _ => _ | None => _ end] =>
        is_var d; destruct d
    end ].

Ltac execute := unfold_engine; repeat (split_world; unfold_engine).

Lemma lines_app a b : lines (a ++ b) = (lines a ++ lines b)%list.
Proof. induction a as [|[m|t] a IH]; simpl; now rewrite ?IH. Qed.

Lemma lines_texts texts : lines (map Text texts) = [].
Proof. induction texts; simpl; auto. Qed.

Lemma lines_map_Line ms : lines (map Line ms) = ms.
Proof. induction ms; simpl; now rewrite ?IHms. Qed.

Create Rewrite HintDb stream.
#[global] Hint Rewrite lines_app lines_texts lines_map_Line : stream.

(** The protocol messages of a stream built by appending. *)
Ltac read_stream :=
  autorewrite with stream; cbn [lines app];
  repeat rewrite <- app_assoc; cbn [app].

(** Every run ends in one of the terminal states of the state machine. *)
Lemma run_shapes w args :
  run_shape (arg_audio_path args) (arg_model args)
    (messages w args) (exit_code w args) (history (snd (run w args))).
Proof.
  destruct args as [path size dev].
  execute; read_stream.
  all: solve [ apply NotFound | apply Unreadable; discriminate
       | apply (Failure path size 2); [lia | reflexivity]
       | apply (Failure path size 3); [lia | reflexivity]
       | apply (Cancelled path size 1); [lia | reflexivity]
       | apply (Cancelled path size 2); [lia | reflexivity]
       | apply (Cancelled path size 3); [lia | reflexivity]
       | apply Completed; reflexivity ].
Qed.

(** ** Lists of messages *)

(** A list with one marked element splits in one way only. *)
Lemma marked_split {A : Type} (P : A -> bool) (l1 : list A) (m0 : A)
    (l2 pre : list A) (m : A) (post : list A) :
  (l1 ++ m0 :: l2 = pre ++ m :: post)%list ->
  Forall (fun x => P x = false) l1 ->
  Forall (fun x => P x = false) l2 ->
  P m = true ->
  pre = l1 /\ m = m0 /\ post = l2.
Proof.
  revert pre. induction l1 as [|a l1 IH]; intros pre E H1 H2 Hm.
  - destruct pre as [|b pre]; simpl in E.
    + injection E as <- <-. auto.
    + injection E as <- ->. exfalso.
      assert (Hin : In m (pre ++ m :: post))
        by (apply in_or_app; right; now left).
      rewrite Forall_forall in H2. specialize (H2 _ Hin). congruence.
  - inversion H1 as [|? ? Ha Hl1]; subst.
    destruct pre as [|b pre]; simpl in E.
    + injection E as -> _. congruence.
    + injection E as <- E.
      destruct (IH pre E Hl1 H2 Hm) as (-> & -> & ->). auto.
Qed.

Lemma percents_app a b : percents (a ++ b) = (percents a ++ percents b)%list.
Proof.
  induction a as [|m a IH]; simpl; auto.
  destruct (is_progress m); auto.
  destruct (field "percent" m) as [[]|]; simpl; now rewrite ?IH.
Qed.

Lemma percents_segments start segments :
  percents (segment_messages_from start segments) = [].
Proof.
  unfold segment_messages_from.
  revert start; induction segments as [|s rest IH]; intro start; simpl; auto.
Qed.

Lemma segments_not P start segments :
  (forall data, P (segment_message data) = false) ->
  Forall (fun m : json => P m = false) (segment_messages_from start segments).
Proof.
  intros HP. unfold segment_messages_from.
  revert start; induction segments as [|s rest IH]; intro start; simpl;
    constructor; auto.
Qed.

Lemma unmarked_split {A : Type} (P : A -> bool) (l pre : list A) (m : A)
    (post : list A) :
  l = (pre ++ m :: post)%list ->
  Forall (fun x => P x = false) l -> P m = true -> False.
Proof.
  intros -> H Hm. rewrite Forall_forall in H.
  assert (Hin : In m (pre ++ m :: post)) by (apply in_or_app; right; now left).
  specialize (H _ Hin). congruence.
Qed.

Lemma shape_percents path size ms code h :
  run_shape path size ms code h ->
  Sorted Z.le (percents ms)
  /\ Forall (fun pc => 0 <= pc <= 100) (percents ms)
  /\ (forall before m after,
        ms = (before ++ m :: after)%list -> has_percent 100 m = true ->
        Forall (fun pc => pc <= 99) (percents before)
        /\ (exists c, after = [c] /\ is_complete c = true)
        /\ m = progress_message 100 "Transcription complete").
Proof.
  intros [ | how Hhow | n e h' Hn Hh | n h' Hn Hh | segs lang dur h' Hh].
  - repeat split; simpl; repeat constructor; try lia.
    all: exfalso; eapply unmarked_split; eauto; repeat constructor.
  - repeat split; simpl; repeat constructor; try lia.
    all: exfalso; eapply unmarked_split; eauto; repeat constructor.
  - assert (Hn' : n = 2%nat \/ n = 3%nat) by lia. destruct Hn' as [-> | ->].
    all: repeat split; simpl; repeat constructor; try lia.
    all: exfalso; eapply unmarked_split; eauto; repeat constructor.
  - assert (Hn' : n = 1%nat \/ n = 2%nat \/ n = 3%nat) by lia.
    destruct Hn' as [-> | [-> | ->]].
    all: repeat split; simpl; repeat constructor; try lia.
    all: exfalso; eapply unmarked_split; eauto; repeat constructor.
  - cbn [stage_progress app]. 
    split; [|split].
    + simpl. rewrite percents_app, percents_segments. simpl.
      repeat constructor; lia.
    + simpl. rewrite percents_app, percents_segments. simpl.
      repeat constructor; lia.
    + intros before m after E Hm.
      change (?a :: ?b :: ?c :: ?d :: ?l ++ [?x; ?y])%list
        with (([a; b; c; d] ++ l) ++ x :: [y])%list in E.
      apply (marked_split (has_percent 100)) in E; auto.
      * destruct E as (-> & -> & ->). split; [|split].
        -- rewrite percents_app, percents_segments. simpl.
           repeat constructor; lia.
        -- eexists; split; reflexivity.
        -- reflexivity.
      * apply Forall_app; split; [repeat constructor|]. now apply segments_not.
Qed.

Lemma has_percent_intro k m :
  is_progress m = true -> field "percent" m = Some (JInt k) ->
  has_percent k m = true.
Proof. intros H1 H2. unfold has_percent. rewrite H1, H2. apply Z.eqb_refl. Qed.


(** ** Terminal messages and exit status *)

Lemma segments_not_terminal start segments :
  Forall (fun m => is_terminal m = false)
    (segment_messages_from start segments).
Proof. now apply segments_not. Qed.

Lemma Forall_lines_app (P : json -> Prop) a b :
  Forall P (lines a) -> Forall P (lines b) -> Forall P (lines (a ++ b)).
Proof. intros. rewrite lines_app. now apply Forall_app. Qed.

Lemma Forall_lines_texts (P : json -> Prop) texts :
  Forall P (lines (map Text texts)).
Proof. rewrite lines_texts. constructor. Qed.

(** C2.  Every run writes exactly one terminal message, a [Complete] or an
    [Error] and never both, and that message is the last thing on the
    protocol stream. *)
Theorem exactly_one_terminal_message w args :
  exists before t,
    protocol_stream w args = (before ++ [Line t])%list
    /\ is_terminal t = true
    /\ is_complete t = negb (is_error t)
    /\ Forall (fun m => is_terminal m = false) (lines before).
Proof.
  destruct args as [path size dev].
  execute.
  all: eexists _, _; split; [reflexivity|].
  all: split; [reflexivity | split; [reflexivity|]].
  all: repeat first [ apply Forall_lines_app | apply Forall_lines_texts
                    | rewrite lines_map_Line; apply segments_not_terminal ].
  all: simpl; repeat constructor.
Qed.

Lemma returned_until_not_interrupted h :
  returned_until Failed h = true -> Forall (fun c => snd c <> Interrupted) h.
Proof.
  induction h as [|[site e] rest IH]; simpl; intro H; [discriminate|].
  destruct rest as [|c rest'].
  - constructor; [|constructor]. destruct e; simpl in *; congruence.
  - apply andb_prop in H as [He H]. constructor; [|now apply IH].
    destruct e; simpl in *; congruence.
Qed.

Lemma returned_until_last how h :
  returned_until how h = true ->
  exists earlier site, h = (earlier ++ [(site, how)])%list
    /\ Forall (fun c => snd c = Returned) earlier.
Proof.
  induction h as [|[site e] rest IH]; simpl; intro H; [discriminate|].
  destruct rest as [|c rest'].
  - exists [], site. destruct e, how; simpl in *; try discriminate; auto.
  - apply andb_prop in H as [He H].
    destruct (IH H) as (earlier & site' & E & F).
    exists ((site, e) :: earlier), site'. rewrite E. split; [reflexivity|].
    constructor; auto. destruct e; simpl in *; congruence.
Qed.

Lemma all_returned_Forall h :
  all_returned h = true -> Forall (fun c => snd c = Returned) h.
Proof.
  unfold all_returned. rewrite forallb_forall, Forall_forall.
  intros H c Hc. specialize (H c Hc). destruct (snd c); simpl in *; congruence.
Qed.

Lemma shape_exit path size ms code h :
  run_shape path size ms code h ->
  exists before t,
    ms = (before ++ [t])%list
    /\ ((code = 0 /\ is_complete t = true
         /\ Forall (fun c => snd c = Returned) h)
        \/ (code = 1 /\ is_error t = true
            /\ Forall (fun c => snd c <> Interrupted) h)
        \/ (code = 130
            /\ t = error_message "Transcription cancelled by user"
            /\ exists earlier site,
                 h = (earlier ++ [(site, Interrupted)])%list
                 /\ Forall (fun c => snd c = Returned) earlier)).
Proof.
  intros [ | how Hhow | n e h' Hn Hh | n h' Hn Hh | segs lang dur h' Hh].
  - exists [], (error_message ("File not found: " ++ path)).
    split; [reflexivity|].
    right; left. repeat split; constructor.
  - eexists [_], _. split; [reflexivity|]. right; left. repeat split.
    constructor; [exact Hhow | constructor].
  - eexists _, _. split; [reflexivity|]. right; left. repeat split.
    now apply returned_until_not_interrupted.
  - eexists _, _. split; [reflexivity|]. right; right. repeat split.
    now apply returned_until_last.
  - exists (stage_progress size
            ++ progress_message 90 "Processing segments..."
            :: segment_messages_from 0 segs
            ++ [progress_message 100 "Transcription complete"])%list,
      (complete_message lang dur).
    split.
    + rewrite <- !app_assoc. simpl. rewrite <- app_assoc. reflexivity.
    + left. repeat split. now apply all_returned_Forall.
Qed.

(** C3.  The exit status is 0 when the run ends with a [Complete] message
    and every call returned, 1 when it ends with an [Error] and no call was
    interrupted, 130 when the last call was cut short by the user's
    interrupt, which is reported as "Transcription cancelled by user". *)
Theorem exit_code_contract w args :
  exists before t,
    messages w args = (before ++ [t])%list
    /\ ((exit_code w args = 0 /\ is_complete t = true
         /\ Forall (fun c => snd c = Returned) (history (snd (run w args))))
        \/ (exit_code w args = 1 /\ is_error t = true
            /\ Forall (fun c => snd c <> Interrupted)
                 (history (snd (run w args))))
        \/ (exit_code w args = 130
            /\ t = error_message "Transcription cancelled by user"
            /\ exists earlier site,
                 history (snd (run w args))
                 = (earlier ++ [(site, Interrupted)])%list
                 /\ Forall (fun c => snd c = Returned) earlier)).
Proof. exact (shape_exit _ _ _ _ _ (run_shapes w args)). Qed.

(** ** Stages of the run *)

Lemma shape_after_load path size ms code h :
  run_shape path size ms code h ->
  forall before after,
    ms = (before ++ model_loaded :: after)%list ->
    (exists rest, after = progress_message 90 "Processing segments..." :: rest)
    \/ (exists str_e, after = [error_message str_e]).
Proof.
  assert (absurd : forall l before after,
            l = (before ++ model_loaded :: after)%list ->
            Forall (fun m => has_percent 20 m = false) l -> False).
  { intros l before after E F.
    now apply (unmarked_split (has_percent 20) l before model_loaded after). }
  assert (third : forall a b c l before after,
            (a :: b :: c :: l = before ++ model_loaded :: after)%list ->
            has_percent 20 a = false -> has_percent 20 b = false ->
            Forall (fun m => has_percent 20 m = false) l ->
            has_percent 20 c = true ->
            after = l).
  { intros a b c l before after E Ha Hb Hl Hc.
    change (a :: b :: c :: l)%list with ([a; b] ++ c :: l)%list in E.
    apply (marked_split (has_percent 20)) in E; auto.
    now destruct E as (_ & _ & ->). }
  intros [ | how Hhow | n e h' Hn Hh | n h' Hn Hh | segs lang dur h' Hh]
    before after E.
  - exfalso. eapply absurd; [exact E | repeat constructor].
  - exfalso. eapply absurd; [exact E | repeat constructor].
  - assert (Hn' : n = 2%nat \/ n = 3%nat) by lia.
    destruct Hn' as [-> | ->]; cbn [firstn stage_progress app] in E.
    + exfalso. eapply absurd; [exact E | repeat constructor].
    + apply third in E; try reflexivity; [|repeat constructor].
      right. now exists e.
  - assert (Hn' : n = 1%nat \/ n = 2%nat \/ n = 3%nat) by lia.
    destruct Hn' as [-> | [-> | ->]]; cbn [firstn stage_progress app] in E.
    + exfalso. eapply absurd; [exact E | repeat constructor].
    + exfalso. eapply absurd; [exact E | repeat constructor].
    + apply third in E; try reflexivity; [|repeat constructor].
      right. eexists; exact E.
  - cbn [stage_progress app] in E.
    apply third in E; try reflexivity.
    + left. eexists; exact E.
    + constructor; [reflexivity|]. apply Forall_app; split.
      * now apply segments_not.
      * repeat constructor.
Qed.

(** C10.  Nothing is emitted between [Progress(20)] and [Progress(90)]: what
    follows "Model loaded, starting transcription..." is either "Processing
    segments..." or the terminal [Error] alone.  The transcription call takes
    no progress callback. *)
Theorem silent_between_load_and_segments w args before after :
  messages w args = (before ++ model_loaded :: after)%list ->
  (exists rest, after = progress_message 90 "Processing segments..." :: rest)
  \/ (exists str_e, after = [error_message str_e]).
Proof. exact (shape_after_load _ _ _ _ _ (run_shapes w args) before after). Qed.

Lemma silent_between_load_and_segments_witness :
  exists rest,
    skipn 3 (messages studio clip)
    = progress_message 90 "Processing segments..." :: rest.
Proof.
  destruct (silent_between_load_and_segments studio clip
              (firstn 2 (messages studio clip))
              (skipn 3 (messages studio clip))) as [H | [e H]].
  - vm_compute. reflexivity.
  - exact H.
  - exfalso. vm_compute in H. discriminate H.
Defined.

(** C4.  When nothing exists at [audio_path] the run writes the single line
    [{"type": "error", "message": "File not found: <audio_path>"}], nothing
    else on either stream, calls no library and exits with status 1. *)
Theorem missing_file_single_error w args :
  path_exists w (arg_audio_path args) = false ->
  run w args
  = (1, {| sys_stdout := OriginalStdout;
           stdout := [Line (error_message
                              ("File not found: " ++ arg_audio_path args))];
           stderr := [];
           history := [] |}).
Proof.
  destruct args as [path size dev]. intros H.
  unfold_engine. cbn [arg_audio_path] in H. rewrite H. reflexivity.
Qed.

Lemma missing_file_single_error_witness :
  run empty_disk nope
  = (1, {| sys_stdout := OriginalStdout;
           stdout :=
             [Line (JDict [("type", JStr "error");
                           ("message", JStr "File not found: ./nope.wav")])];
           stderr := [];
           history := [] |}).
Proof. apply (missing_file_single_error empty_disk nope). reflexivity. Defined.


Lemma redirected_call_restores {A : Type} (site : callsite) (c : call A)
    (saved : writer) (p : process) :
  sys_stdout (snd (try_finally (external site c) (set_sys_stdout saved)
                     (rebound StderrRedirector p)))
  = saved.
Proof.
  unfold try_finally. rewrite external_run.
  now destruct (result_of c).
Qed.

(** C9.  A call wrapped in the redirection leaves [sys.stdout] bound to the
    saved stream however it ends, and [transcribe_audio] as a whole leaves
    [sys.stdout] as it found it on every path. *)
Theorem stdout_restored w args p :
  sys_stdout (snd (main w args p)) = sys_stdout p
  /\ (forall (A : Type) (site : callsite) (c : call A) (saved : writer),
        sys_stdout (snd (try_finally (external site c) (set_sys_stdout saved)
                           (rebound StderrRedirector p)))
        = saved).
Proof.
  split.
  - destruct args as [path size dev]. destruct p as [[|] out err h].
    all: execute; reflexivity.
  - intros A site c saved. apply redirected_call_restores.
Qed.

(** ** Rounding *)

Ltac compared H :=
  match type of H with
  | (_ ?= _)%Q = Eq => apply Qeq_alt in H
  | (_ ?= _)%Q = Lt => apply Qlt_alt in H
  | (_ ?= _)%Q = Gt => apply Qgt_alt in H
  end.

Lemma round_half_even_bounds q :
  (inject_Z (Py.round_half_even q) - q <= 1 # 2)%Q
  /\ (q - inject_Z (Py.round_half_even q) <= 1 # 2)%Q.
Proof.
  unfold Py.round_half_even.
  pose proof (Qfloor_le q) as Hlo. pose proof (Qlt_floor q) as Hhi.
  rewrite inject_Z_plus in Hhi. change (inject_Z 1) with 1%Q in Hhi.
  set (f := Qfloor q) in *.
  destruct (q - inject_Z f ?= 1 # 2)%Q eqn:C; compared C.
  - destruct (Z.even f).
    + split; lra.
    + rewrite inject_Z_plus. change (inject_Z 1) with 1%Q. split; lra.
  - split; lra.
  - rewrite inject_Z_plus. change (inject_Z 1) with 1%Q. split; lra.
Qed.

Lemma round_half_even_monotone x y :
  (x <= y)%Q -> Py.round_half_even x <= Py.round_half_even y.
Proof.
  intros Hxy.
  pose proof (Qfloor_resp_le x y Hxy) as Hf.
  assert (Hx : Qfloor x <= Py.round_half_even x <= Qfloor x + 1).
  { unfold Py.round_half_even.
    destruct (x - inject_Z (Qfloor x) ?= 1 # 2)%Q;
      try destruct (Z.even (Qfloor x)); lia. }
  assert (Hy : Qfloor y <= Py.round_half_even y <= Qfloor y + 1).
  { unfold Py.round_half_even.
    destruct (y - inject_Z (Qfloor y) ?= 1 # 2)%Q;
      try destruct (Z.even (Qfloor y)); lia. }
  destruct (Z.eq_dec (Qfloor x) (Qfloor y)) as [E | NE]; [|lia].
  unfold Py.round_half_even. rewrite <- E.
  set (f := Qfloor x) in *.
  destruct (x - inject_Z f ?= 1 # 2)%Q eqn:Cx;
    destruct (y - inject_Z f ?= 1 # 2)%Q eqn:Cy;
    try destruct (Z.even f); try lia; exfalso.
  all: compared Cx; compared Cy; lra.
Qed.

Lemma round3_monotone x y : (x <= y)%Q -> (Py.round3 x <= Py.round3 y)%Q.
Proof.
  intros Hxy. unfold Py.round3, Qle; simpl.
  assert (H : Py.round_half_even (x * 1000) <= Py.round_half_even (y * 1000)).
  { apply round_half_even_monotone. lra. }
  lia.
Qed.

Lemma round3_to_3_decimals x : to_3_decimals x (Py.round3 x).
Proof.
  split; [now exists (Py.round_half_even (x * 1000))|].
  destruct (round_half_even_bounds (x * 1000)) as [H1 H2].
  apply Qabs_Qle_condition. unfold Py.round3.
  set (k := Py.round_half_even (x * 1000)) in *.
  assert (E : (k # 1000 == inject_Z k * (1 # 1000))%Q).
  { unfold Qeq; simpl. lia. }
  rewrite E. split; lra.
Qed.

Lemma Sorted_map {A B : Type} (R : A -> A -> Prop) (R' : B -> B -> Prop)
    (g : A -> B) (l : list A) :
  (forall a b, R a b -> R' (g a) (g b)) ->
  Sorted R l -> Sorted R' (map g l).
Proof.
  intros Hg. induction 1 as [|a l S IH Hd]; simpl; constructor; auto.
  destruct Hd; simpl; constructor; auto.
Qed.

(** ** Segment messages *)

Ltac known := first [eassumption | reflexivity].

Lemma filter_segments start segments :
  filter is_segment (segment_messages_from start segments)
  = segment_messages_from start segments.
Proof.
  unfold segment_messages_from.
  revert start; induction segments as [|s rest IH]; intro start; simpl; auto.
  now rewrite IH.
Qed.

Lemma starts_of_segments start segments :
  segment_starts (segment_messages_from start segments)
  = map (fun s => Py.round3 (Py.get (seg_start s) 0%Q)) segments.
Proof.
  unfold segment_messages_from.
  revert start; induction segments as [|s rest IH]; intro start; simpl; auto.
  now rewrite IH.
Qed.

Lemma segment_starts_app a b :
  segment_starts (a ++ b) = (segment_starts a ++ segment_starts b)%list.
Proof.
  induction a as [|m a IH]; simpl; auto.
  destruct (is_segment m); auto.
  destruct (field "data" m) as [d|]; auto.
  destruct (field "start" d) as [[]|]; simpl; now rewrite ?IH.
Qed.

Lemma rounded_starts_sorted segments :
  chronological segments ->
  Sorted Qle (map (fun s => Py.round3 (Py.get (seg_start s) 0%Q)) segments).
Proof.
  unfold chronological. intros H.
  rewrite <- (map_map (fun s => Py.get (seg_start s) 0%Q) Py.round3).
  apply (Sorted_map Qle Qle); auto. apply round3_monotone.
Qed.

(** C7, amended.  A run that fails emits no [Segment] message.  A run that
    succeeds emits one [Segment] message per segment of the transcription,
    in the order the model returned them and numbered from 0; their [start]
    values are non-decreasing whenever the model's own segments are. *)
Theorem segments_follow_model_order w args :
  (exit_code w args <> 0 -> filter is_segment (messages w args) = [])
  /\ (exit_code w args = 0 ->
      exists device model audio result,
        result_of (load_model w (arg_model args) device) = Returns model
        /\ result_of (load_audio w (arg_audio_path args)) = Returns audio
        /\ result_of (transcribe w model audio) = Returns result
        /\ filter is_segment (messages w args)
           = segment_messages_from 0 (Py.get (res_segments result) [])
        /\ (chronological (Py.get (res_segments result) []) ->
            Sorted Qle (segment_starts (messages w args)))).
Proof.
  destruct args as [path size dev].
  execute; read_stream; cbn [arg_model arg_audio_path].
  all: split; intros Hcode; try (exfalso; lia); try reflexivity.
  all: eexists _, _, _, _; split; [known | split; [known | split; [known |]]].
  all: change (?a :: ?b :: ?c :: ?d :: ?l)%list with ([a; b; c; d] ++ l)%list.
  all: split;
    [rewrite !filter_app, filter_segments; simpl; apply app_nil_r
    | intros Hs].
  all: rewrite !segment_starts_app, starts_of_segments; simpl.
  all: rewrite app_nil_r; now apply rounded_starts_sorted.
Qed.

(** C7 as stated fails: segments the model returns out of order are emitted
    out of order. *)
Lemma out_of_order_segments :
  ~ Sorted Qle (segment_starts (messages studio clip)).
Proof.
  assert (E : segment_starts (messages studio clip)
              = [Py.round3 (3 # 2); Py.round3 (1 # 4)])
    by (vm_compute; reflexivity).
  rewrite E. intros H.
  inversion H as [|a l S Hd]; subst. inversion Hd as [|b l' Hle]; subst.
  vm_compute in Hle. now apply Hle.
Qed.

(** ** The duration probe *)

Lemma get_audio_duration_run w path p :
  get_audio_duration w path p =
  match result_of (probe_audio w path) with
  | Returns audio =>
      (Ok (Z.of_nat (List.length audio) # 16000),
       logged ProbeAudio Returned
         (written (map Text (noise (probe_audio w path))) p))
  | Fails _ =>
      (Ok 0%Q,
       logged ProbeAudio Failed
         (written (map Text (noise (probe_audio w path))) p))
  | KeyboardInterrupted =>
      (Raise Py.KeyboardInterrupt,
       logged ProbeAudio Interrupted
         (written (map Text (noise (probe_audio w path))) p))
  end.
Proof.
  unfold get_audio_duration, try_except, bind. rewrite external_run.
  now destruct (result_of (probe_audio w path)).
Qed.

(** C8.  [get_audio_duration] returns 0.0 when loading the audio raises.
    For an existing file whose computed duration is at most 0 the run emits
    [Progress(5)], then the [Error] "Could not determine audio duration", and
    exits with status 1. *)
Theorem unreadable_audio_is_an_error w args :
  (forall str_e p,
      result_of (probe_audio w (arg_audio_path args)) = Fails str_e ->
      fst (get_audio_duration w (arg_audio_path args) p) = Ok 0%Q)
  /\ (path_exists w (arg_audio_path args) = true ->
      (exists d,
          fst (get_audio_duration w (arg_audio_path args) probing) = Ok d
          /\ (d <= 0)%Q) ->
      messages w args
      = [progress_message 5 "Loading audio file...";
         error_message "Could not determine audio duration"]
      /\ exit_code w args = 1).
Proof.
  destruct args as [path size dev]. cbn [arg_audio_path]. split.
  - intros str_e p H. rewrite get_audio_duration_run, H. reflexivity.
  - intros Hex (d & Hd & Hle).
    rewrite get_audio_duration_run in Hd.
    set (args := {| arg_audio_path := path; arg_model := size;
                    arg_device := dev |}).
    assert (Hrun :
      main w args boot
      = (1, written
              [Line (error_message "Could not determine audio duration")]
              (snd (get_audio_duration w path probing)))).
    { unfold main, transcribe_audio, try_except, transcribe_audio_body, args.
      cbn [arg_audio_path arg_model arg_device].
      unfold bind at 1. rewrite Hex. cbn [negb]. unfold ret at 1.
      unfold bind at 1.
      unfold emit_progress at 1, ProtocolEmitter.progress,
        ProtocolEmitter._emit, write.
      change (Z.max 0 (Z.min 100 5)) with 5.
      fold (progress_message 5 "Loading audio file..."). fold probing.
      unfold bind at 1. rewrite get_audio_duration_run.
      destruct (result_of (probe_audio w path)) as [audio | str_e |] eqn:Hp;
        cbn [fst] in Hd.
      - injection Hd as <-. apply Qle_bool_iff in Hle.
        unfold bind at 1. rewrite Hle. reflexivity.
      - reflexivity.
      - discriminate Hd. }
    unfold messages, protocol_stream, exit_code, run. rewrite Hrun.
    cbn [fst snd].
    split; [|reflexivity].
    rewrite get_audio_duration_run.
    destruct (result_of (probe_audio w path)); cbn [snd];
      unfold written, logged, probing, written, boot; cbn;
      read_stream; reflexivity.
Qed.

Lemma unreadable_audio_is_an_error_witness :
  fst (get_audio_duration corrupt_file "clip.wav" probing) = Ok 0%Q
  /\ messages corrupt_file clip
     = [progress_message 5 "Loading audio file...";
        error_message "Could not determine audio duration"]
  /\ exit_code corrupt_file clip = 1.
Proof.
  destruct (unreadable_audio_is_an_error corrupt_file clip) as [H1 H2].
  split.
  - apply (H1 "Failed to load audio" probing). reflexivity.
  - apply H2.
    + reflexivity.
    + exists 0%Q. split; [reflexivity | discriminate].
Defined.

(** ** The progress callback *)

(** Cutting towards zero and capping at 99 emits what flooring and clamping
    to [0, 99] emits, the last emitted percent being non-negative. *)
Lemma percent_agrees (x : Q) (last : Z) :
  0 <= last ->
  (Z.min (Py.truncate x) 99 >? last)
  = (last <? ReporterSpec.clamp (Qfloor x))
  /\ ((last <? ReporterSpec.clamp (Qfloor x)) = true ->
      Z.min (Py.truncate x) 99 = ReporterSpec.clamp (Qfloor x)
      /\ Z.max 0 (Z.min 100 (Z.min (Py.truncate x) 99))
         = ReporterSpec.clamp (Qfloor x)).
Proof.
  intros Hlast. destruct x as [n d].
  unfold Py.truncate, Qfloor, ReporterSpec.clamp.
  cbn [Qnum Qden].
  assert (Hd : 0 < Z.pos d) by lia.
  rewrite Z.gtb_ltb.
  destruct (Z_lt_le_dec n 0) as [Hn | Hn].
  - assert (Hq : n ÷ Z.pos d <= 0).
    { replace n with (- - n) by lia. rewrite Z.quot_opp_l by lia.
      pose proof (Z.quot_pos (- n) (Z.pos d)). lia. }
    assert (Hf : n / Z.pos d < 0) by (apply Z.div_lt_upper_bound; lia).
    split.
    + destruct (Z.ltb_spec last (Z.min (n ÷ Z.pos d) 99));
        destruct (Z.ltb_spec last (Z.max 0 (Z.min 99 (n / Z.pos d))));
        auto; lia.
    + intros H. apply Z.ltb_lt in H. lia.
  - rewrite Z.quot_div_nonneg by lia.
    pose proof (Z.div_pos n (Z.pos d) Hn Hd) as Hf.
    split.
    + destruct (Z.ltb_spec last (Z.min (n / Z.pos d) 99));
        destruct (Z.ltb_spec last (Z.max 0 (Z.min 99 (n / Z.pos d))));
        auto; lia.
    + intros H. lia.
Qed.

Lemma call_refines total last current pc p :
  (0 <? total)%float = true -> 0 <= last ->
  ReporterSpec.percent64 total current = Some pc ->
  Callback.__call__ {| total_duration := total; last_percent := last |}
    current p
  = (Ok {| total_duration := total;
           last_percent := fst (ReporterSpec.step last pc) |},
     written (map (fun pc => Line (transcribing_message pc))
                (snd (ReporterSpec.step last pc))) p).
Proof.
  intros Htotal Hlast Hpc. unfold Callback.__call__.
  cbn [total_duration last_percent]. rewrite Htotal.
  unfold ReporterSpec.percent64 in Hpc. unfold bind at 1, int.
  destruct (Py.exact (current / total * 100)%float) as [product|];
    [|discriminate].
  injection Hpc as <-. unfold ret at 1.
  destruct (percent_agrees product last Hlast) as [E1 E2].
  rewrite E1. unfold ReporterSpec.step.
  destruct (last <? ReporterSpec.clamp (Qfloor product)) eqn:C.
  - destruct (E2 eq_refl) as [E3 E4].
    unfold bind, emit_progress, ProtocolEmitter.progress,
      ProtocolEmitter._emit, write, ret.
    cbn [fst snd map]. rewrite E4, E3. reflexivity.
  - unfold ret. cbn [fst snd map]. now rewrite written_nil.
Qed.

Lemma step_bounds last pc :
  0 <= last -> 0 <= pc <= 99 ->
  last <= fst (ReporterSpec.step last pc)
  /\ Forall (fun x => last < x <= 99) (snd (ReporterSpec.step last pc)).
Proof.
  intros Hlast Hpc. unfold ReporterSpec.step.
  destruct (Z.ltb_spec last pc); cbn [fst snd]; split; try lia;
    repeat constructor; lia.
Qed.

Lemma percent64_bounds total current pc :
  ReporterSpec.percent64 total current = Some pc -> 0 <= pc <= 99.
Proof.
  unfold ReporterSpec.percent64, ReporterSpec.clamp.
  destruct (Py.exact _); [|discriminate]. intros E. injection E as <-. lia.
Qed.

Lemma feed_refines total :
  (0 <? total)%float = true ->
  forall signal computed last p,
    0 <= last ->
    map (ReporterSpec.percent64 total) signal = map Some computed ->
    Callback.feed {| total_duration := total; last_percent := last |}
      signal p
    = (Ok {| total_duration := total;
             last_percent := fst (ReporterSpec.emissions last computed) |},
       written (map (fun pc => Line (transcribing_message pc))
                  (snd (ReporterSpec.emissions last computed))) p).
Proof.
  intros Htotal.
  induction signal as [|current rest IH]; intros computed last p Hlast E.
  - destruct computed; [|discriminate]. cbn. unfold ret.
    now rewrite written_nil.
  - destruct computed as [|pc computed]; [discriminate|].
    cbn [map] in E. injection E as Epc Erest.
    cbn [Callback.feed ReporterSpec.emissions]. unfold bind.
    rewrite (call_refines total last current pc) by assumption.
    destruct (step_bounds last pc Hlast (percent64_bounds _ _ _ Epc))
      as [Hle _].
    destruct (ReporterSpec.step last pc) as [last' now] eqn:Es.
    cbn [fst snd] in *. rewrite (IH computed) by (assumption || lia).
    destruct (ReporterSpec.emissions last' computed) as [last'' later].
    cbn [fst snd]. now rewrite map_app, written_app.
Qed.

(** C6, amended.  For a total duration above 0 and a signal whose products
    [(current / total) * 100] are all finite, the callback emits what the
    reporter of the specification emits and ends with the same last emitted
    percent, the percent being the floor of the product as binary64 computes
    it, clamped to [0, 99]: it is emitted only when it exceeds the last
    emitted percent, 0 at first, which it then replaces. *)
Theorem progress_reporter_meets_contract total signal computed p :
  (0 <? total)%float = true ->
  map (ReporterSpec.percent64 total) signal = map Some computed ->
  Callback.feed (Callback.__init__ total) signal p
  = (Ok {| total_duration := total;
           last_percent := fst (ReporterSpec.emissions 0 computed) |},
     written (map (fun pc => Line (transcribing_message pc))
                (snd (ReporterSpec.emissions 0 computed))) p).
Proof. intros H E. apply feed_refines; [assumption | lia | assumption]. Qed.

Lemma progress_reporter_meets_contract_witness :
  Callback.feed (Callback.__init__ 10) [1; 0.5; 5.5; -3; 20]%float boot
  = (Ok {| total_duration := 10%float; last_percent := 99 |},
     written [Line (transcribing_message 10); Line (transcribing_message 55);
              Line (transcribing_message 99)] boot).
Proof.
  apply (progress_reporter_meets_contract 10%float
           [1; 0.5; 5.5; -3; 20]%float [10; 5; 55; 0; 99] boot);
    reflexivity.
Defined.

(** C6 as stated fails: at a total of 100.0 and the position 29.0 the
    product is 28.999999999999996 in binary64, so the callback emits 28,
    while [floor(29 / 100 * 100)] is 29. *)
Lemma binary64_product_falls_short :
  (exists total,
      Py.exact 100%float = Some total /\ (total == inject_Z 100)%Q)
  /\ (exists current,
        Py.exact 29%float = Some current /\ (current == inject_Z 29)%Q)
  /\ ReporterSpec.percent (inject_Z 100) (inject_Z 29) = 29
  /\ percents (lines (stdout (snd
       (Callback.__call__ (Callback.__init__ 100) 29 boot)))) = [28]
  /\ percents (lines (stdout (snd
       (Callback.__call__ (Callback.__init__ 100) 29 boot))))
     <> [ReporterSpec.percent (inject_Z 100) (inject_Z 29)].
Proof.
  split.
  { eexists. split; [vm_compute; reflexivity | vm_compute; reflexivity]. }
  split.
  { eexists. split; [vm_compute; reflexivity | vm_compute; reflexivity]. }
  split; [vm_compute; reflexivity|].
  split; [vm_compute; reflexivity|].
  vm_compute. discriminate.
Qed.

(** Whatever the arithmetic gives, a call either leaves the process alone
    or prints one percent above the last one and at most 99. *)
Lemma call_prints_above_last self current p :
  0 <= last_percent self ->
  (snd (Callback.__call__ self current p) = p
   /\ (fst (Callback.__call__ self current p) = Ok self
       \/ exists e, fst (Callback.__call__ self current p) = Raise e))
  \/ (exists pc,
        last_percent self < pc <= 99
        /\ Callback.__call__ self current p
           = (Ok {| total_duration := total_duration self;
                    last_percent := pc |},
              written [Line (transcribing_message pc)] p)).
Proof.
  intros Hlast.
  remember (Callback.__call__ self current p) as r eqn:Er.
  unfold Callback.__call__ in Er.
  destruct (0 <? total_duration self)%float; [|subst r; left; auto].
  unfold bind at 1, int in Er.
  destruct (Py.exact (current / total_duration self * 100)%float)
    as [product|].
  - unfold ret at 1 in Er. cbv beta iota zeta in Er.
    destruct (Z.min (Py.truncate product) 99 >? last_percent self) eqn:C.
    + rewrite Z.gtb_ltb in C. apply Z.ltb_lt in C.
      right. exists (Z.min (Py.truncate product) 99). split; [lia|].
      subst r.
      unfold bind, emit_progress, ProtocolEmitter.progress,
        ProtocolEmitter._emit, write, ret.
      replace (Z.max 0 (Z.min 100 (Z.min (Py.truncate product) 99)))
        with (Z.min (Py.truncate product) 99) by lia.
      reflexivity.
    + subst r. left. auto.
  - left. subst r. destruct (is_nan _); cbn; eauto.
Qed.

Lemma feed_prints_increasing signal :
  forall self p,
    0 <= last_percent self ->
    exists emitted,
      snd (Callback.feed self signal p)
      = written (map (fun pc => Line (transcribing_message pc)) emitted) p
      /\ Forall (fun pc => last_percent self < pc <= 99) emitted
      /\ Sorted Z.lt emitted.
Proof.
  induction signal as [|current rest IH]; intros self p Hlast.
  - exists []. cbn. rewrite written_nil. repeat split; constructor.
  - cbn [Callback.feed]. unfold bind.
    destruct (call_prints_above_last self current p Hlast)
      as [[Ep [Er | [e Er]]] | (pc & Hpc & E)].
    + destruct (Callback.__call__ self current p) as [r p'].
      cbn [fst snd] in *. subst. apply IH. assumption.
    + destruct (Callback.__call__ self current p) as [r p'].
      cbn [fst snd] in *. subst. exists []. cbn. rewrite written_nil.
      repeat split; constructor.
    + rewrite E. cbv beta iota.
      destruct (IH {| total_duration := total_duration self;
                      last_percent := pc |}
                  (written [Line (transcribing_message pc)] p))
        as (later & Es & F & S); [cbn; lia|].
      exists (pc :: later). cbn [last_percent] in F. split; [|split].
      * rewrite Es. cbn [map]. symmetry.
        apply (written_app [Line (transcribing_message pc)]).
      * constructor; [lia|].
        eapply Forall_impl; [|exact F]. cbv beta. intros; lia.
      * constructor; [assumption|].
        destruct later as [|x later']; constructor.
        inversion F; subst. lia.
Qed.

Lemma percents_transcribing l :
  percents (map transcribing_message l) = l.
Proof. induction l as [|pc l IH]; simpl; now rewrite ?IH. Qed.

Lemma callback_percents total signal :
  let ps := percents (lines (stdout (snd
              (Callback.feed (Callback.__init__ total) signal boot)))) in
  Sorted Z.lt ps /\ Forall (fun pc => 0 < pc <= 99) ps.
Proof.
  cbv zeta.
  destruct (feed_prints_increasing signal (Callback.__init__ total) boot)
    as (emitted & E & F & S); [cbn; lia|].
  rewrite E. unfold written, boot. cbn [sys_stdout stdout app].
  rewrite <- map_map, lines_map_Line, percents_transcribing. auto.
Qed.

(** C1, amended.  In a run the percent values of the [Progress] messages are
    non-decreasing and lie in [0, 100].  The value 100 is carried by the
    last [Progress] message only, "Transcription complete": every
    [Progress] before it is at most 99 and the terminal [Complete] message
    follows it at once.  The progress callback never emits more than 99. *)
Theorem progress_percent_monotone w args :
  let ps := percents (messages w args) in
  Sorted Z.le ps
  /\ Forall (fun pc => 0 <= pc <= 100) ps
  /\ (forall before m after,
        messages w args = (before ++ m :: after)%list ->
        is_progress m = true -> field "percent" m = Some (JInt 100) ->
        Forall (fun pc => pc <= 99) (percents before)
        /\ (exists c, after = [c] /\ is_complete c = true)
        /\ m = progress_message 100 "Transcription complete")
  /\ (forall total signal,
        let qs := percents (lines (stdout (snd
                    (Callback.feed (Callback.__init__ total) signal boot)))) in
        Sorted Z.lt qs /\ Forall (fun pc => 0 < pc <= 99) qs).
Proof.
  destruct (shape_percents _ _ _ _ _ (run_shapes w args)) as (H1 & H2 & H3).
  cbv zeta. split; [exact H1 | split; [exact H2 | split]].
  - intros before m after E P1 P2. apply (H3 before m after E).
    now apply has_percent_intro.
  - intros total signal. apply callback_percents.
Qed.

(** C1 as stated fails: a successful run emits [Progress(100)] before its
    terminal message. *)
Lemma progress_reaches_100 :
  ~ Forall (fun pc => 0 <= pc <= 99) (percents (messages studio clip)).
Proof.
  assert (E : percents (messages studio clip) = [5; 10; 20; 90; 100])
    by (vm_compute; reflexivity).
  rewrite E. intros H.
  repeat match goal with
         | H : Forall _ (_ :: _) |- _ => inversion H; clear H; subst
         end.
  lia.
Qed.


(** ** Formatting a segment *)

Lemma digit_is_digit d :
  0 <= d <= 9 -> is_digit (Py.digit d) = true /\ digit_value (Py.digit d) = d.
Proof.
  intros H.
  assert (C : d = 0 \/ d = 1 \/ d = 2 \/ d = 3 \/ d = 4 \/ d = 5 \/ d = 6
              \/ d = 7 \/ d = 8 \/ d = 9) by lia.
  repeat destruct C as [-> | C]; try subst d; split; reflexivity.
Qed.

Lemma all_digits_app s t :
  all_digits (s ++ t) = all_digits s && all_digits t.
Proof. induction s as [|c s IH]; simpl; auto. now rewrite IH, andb_assoc. Qed.

Lemma decimal_value_from_app acc s t :
  decimal_value_from acc (s ++ t)
  = decimal_value_from (decimal_value_from acc s) t.
Proof. revert acc; induction s as [|c s IH]; intro acc; simpl; auto. Qed.

Lemma length_app s t :
  String.length (s ++ t) = (String.length s + String.length t)%nat.
Proof. induction s as [|c s IH]; simpl; auto. Qed.

Lemma append_assoc (s t u : string) : (s ++ t) ++ u = s ++ (t ++ u).
Proof. induction s as [|c s IH]; simpl; auto. now rewrite IH. Qed.

(** The digits [digits_of] puts in front of its accumulator. *)
Lemma digits_of_spec fuel :
  forall n acc,
    0 <= n -> (Z.to_nat n < fuel)%nat ->
    exists ds,
      Py.digits_of fuel n acc = ds ++ acc
      /\ all_digits ds = true
      /\ decimal_value ds = n
      /\ (1 <= String.length ds)%nat
      /\ n < 10 ^ Z.of_nat (String.length ds)
      /\ ((1 < String.length ds)%nat ->
          10 ^ (Z.of_nat (String.length ds) - 1) <= n).
Proof.
  induction fuel as [|fuel IH]; intros n acc Hn Hfuel; [lia|].
  cbn [Py.digits_of].
  assert (Hmod : 0 <= n mod 10 <= 9)
    by (pose proof (Z.mod_pos_bound n 10); lia).
  destruct (digit_is_digit (n mod 10) Hmod) as [Hd Hv].
  destruct (Z.ltb_spec n 10) as [Hsmall | Hbig].
  - exists (String (Py.digit (n mod 10)) "").
    split; [reflexivity|].
    split; [cbn [all_digits]; now rewrite Hd|].
    split; [unfold decimal_value; cbn [decimal_value_from];
            rewrite Hv, Z.mod_small; lia|].
    cbn [String.length]. change (10 ^ Z.of_nat 1) with 10.
    repeat split; lia.
  - assert (Hdiv : 0 <= n / 10 < n).
    { split; [apply Z.div_pos; lia | apply Z.div_lt; lia]. }
    destruct (IH (n / 10) (String (Py.digit (n mod 10)) acc)) as
      (ds & E & Hall & Hval & Hlen & Hup & Hlow); try lia.
    exists (ds ++ String (Py.digit (n mod 10)) "").
    rewrite E, append_assoc. cbn [append]. split; [reflexivity|].
    rewrite all_digits_app, Hall. cbn [all_digits andb]. rewrite Hd.
    unfold decimal_value in *. rewrite decimal_value_from_app, Hval.
    cbn [decimal_value_from].
    rewrite Hv, length_app. cbn [String.length].
    replace (Z.of_nat (String.length ds + 1))
      with (Z.of_nat (String.length ds) + 1) by lia.
    rewrite Z.pow_add_r by lia.
    replace (Z.of_nat (String.length ds) + 1 - 1)
      with (Z.of_nat (String.length ds)) by lia.
    pose proof (Z.div_mod n 10 ltac:(lia)) as Hdm.
    repeat split; try lia.
    intros _.
    destruct (Nat.eq_dec (String.length ds) 1) as [E1 | NE1].
    + rewrite E1. cbn. lia.
    + specialize (Hlow ltac:(lia)).
      replace (Z.of_nat (String.length ds))
        with (Z.of_nat (String.length ds) - 1 + 1) by lia.
      rewrite Z.pow_add_r by lia. lia.
Qed.

Lemma decimal_spec n :
  0 <= n ->
  all_digits (Py.decimal n) = true
  /\ decimal_value (Py.decimal n) = n
  /\ (1 <= String.length (Py.decimal n))%nat
  /\ n < 10 ^ Z.of_nat (String.length (Py.decimal n))
  /\ ((1 < String.length (Py.decimal n))%nat ->
      10 ^ (Z.of_nat (String.length (Py.decimal n)) - 1) <= n).
Proof.
  intros Hn. unfold Py.decimal.
  destruct (digits_of_spec (S (Z.to_nat n)) n "" Hn ltac:(lia)) as (ds & E & H).
  rewrite E. replace (ds ++ "") with ds; [exact H|].
  clear. induction ds as [|c ds IH]; simpl; auto. now rewrite <- IH.
Qed.

Lemma digit_value_bounds c : is_digit c = true -> 0 <= digit_value c <= 9.
Proof.
  unfold is_digit, digit_value. intros H. apply andb_prop in H as [H1 H2].
  apply N.leb_le in H1, H2. lia.
Qed.

Lemma decimal_value_bounds s :
  all_digits s = true ->
  forall acc,
    decimal_value_from acc s
    = acc * 10 ^ Z.of_nat (String.length s) + decimal_value_from 0 s
    /\ 0 <= decimal_value_from 0 s < 10 ^ Z.of_nat (String.length s).
Proof.
  induction s as [|c s IH]; intros Hall acc.
  - cbn. lia.
  - cbn [all_digits] in Hall. apply andb_prop in Hall as [Hc Hs].
    pose proof (digit_value_bounds c Hc) as Hv.
    cbn [decimal_value_from String.length].
    destruct (IH Hs (acc * 10 + digit_value c)) as [E1 _].
    destruct (IH Hs (0 * 10 + digit_value c)) as [E2 B].
    rewrite E1, E2.
    replace (Z.of_nat (S (String.length s)))
      with (Z.of_nat (String.length s) + 1) by lia.
    rewrite Z.pow_add_r by lia.
    assert (0 < 10 ^ Z.of_nat (String.length s))
      by (apply Z.pow_pos_nonneg; lia).
    split; nia.
Qed.

Lemma zeros_spec k :
  all_digits (Py.zeros k) = true
  /\ (forall s, decimal_value_from 0 (Py.zeros k ++ s) = decimal_value_from 0 s)
  /\ String.length (Py.zeros k) = k.
Proof.
  induction k as [|k (H1 & H2 & H3)]; cbn; repeat split; auto.
Qed.

Lemma format_04d_is_segment_id i :
  0 <= i -> is_segment_id i ("seg_" ++ Py.format_04d i).
Proof.
  intros Hi. unfold Py.format_04d.
  destruct (Z.ltb_spec i 0) as [Hneg | _]; [lia|].
  destruct (decimal_spec i Hi) as (Hall & Hval & Hlen & Hup & Hlow).
  set (ds := Py.decimal i) in *.
  destruct (zeros_spec (4 - String.length ds)) as (Zall & Zval & Zlen).
  exists (Py.zeros (4 - String.length ds) ++ ds).
  split; [reflexivity|].
  split; [now rewrite all_digits_app, Zall, Hall|].
  split; [unfold decimal_value in *; now rewrite Zval|].
  rewrite length_app, Zlen.
  assert (Hshort : i <= 9999 -> (String.length ds <= 4)%nat).
  { intros Hs.
    destruct (le_lt_dec (String.length ds) 4) as [|Hlong]; [assumption|].
    exfalso. specialize (Hlow ltac:(lia)).
    assert (10 ^ 4 <= 10 ^ (Z.of_nat (String.length ds) - 1))
      by (apply Z.pow_le_mono_r; lia).
    change (10 ^ 4) with 10000 in *. lia. }
  split; [lia|]. split; [intros Hs; specialize (Hshort Hs); lia|].
  intros Hlong rest E.
  assert (Hz : (4 - String.length ds = 0)%nat) by lia.
  rewrite Hz in E. cbn [Py.zeros append] in E.
  specialize (Hlow ltac:(lia)).
  rewrite E in Hall, Hval, Hlow. cbn [all_digits] in Hall.
  apply andb_prop in Hall as [_ Hrest].
  unfold decimal_value in Hval. cbn [decimal_value_from] in Hval.
  change (0 * 10 + digit_value "0") with 0 in Hval.
  destruct (decimal_value_bounds rest Hrest 0) as [_ B].
  cbn [String.length] in Hlow.
  replace (Z.of_nat (S (String.length rest)) - 1)
    with (Z.of_nat (String.length rest)) in Hlow by lia.
  lia.
Qed.

Lemma lstrip_chars_spec l :
  exists spaces,
    l = (spaces ++ Py.lstrip_chars l)%list
    /\ forallb Py.isspace spaces = true
    /\ (forall c rest, Py.lstrip_chars l = c :: rest -> Py.isspace c = false).
Proof.
  induction l as [|c l (spaces & E & Hs & Hhead)].
  - exists []. repeat split; auto. discriminate.
  - cbn [Py.lstrip_chars]. destruct (Py.isspace c) eqn:Hc.
    + exists (c :: spaces). cbn [app forallb]. rewrite Hc, Hs, <- E. auto.
    + exists []. repeat split; auto.
      intros c' rest E'. now injection E' as <- _.
Qed.

Lemma rstrip_chars_spec l :
  exists spaces,
    l = (Py.rstrip_chars l ++ spaces)%list
    /\ forallb Py.isspace spaces = true
    /\ (forall c front, Py.rstrip_chars l = (front ++ [c])%list ->
        Py.isspace c = false).
Proof.
  unfold Py.rstrip_chars.
  destruct (lstrip_chars_spec (rev l)) as (spaces & E & Hs & Hhead).
  exists (rev spaces). split; [|split].
  - rewrite <- rev_app_distr, <- E. now rewrite rev_involutive.
  - rewrite forallb_forall in *. intros c Hc. apply Hs. now apply in_rev.
  - intros c front Ef. apply (Hhead c (rev front)).
    rewrite <- (rev_involutive (Py.lstrip_chars (rev l))), Ef.
    now rewrite rev_app_distr.
Qed.

Lemma strip_trimmed s : trimmed_from s (Py.strip s).
Proof.
  unfold Py.strip, trimmed_from.
  rewrite list_ascii_of_string_of_list_ascii.
  destruct (lstrip_chars_spec (list_ascii_of_string s))
    as (l & El & Hl & Hhead).
  set (u := Py.lstrip_chars (list_ascii_of_string s)) in *.
  destruct (rstrip_chars_spec u) as (r & Er & Hr & Hlast).
  exists l, r. repeat split; auto.
  - now rewrite <- Er.
  - intros c rest E. rewrite E in Er. cbn [app] in Er.
    exact (Hhead c _ Er).
Qed.

Lemma strip_empty : Py.strip "" = "".
Proof. reflexivity. Qed.

Lemma round3_numeric_field entry :
  numeric_field entry (Py.round3 (Py.get entry 0%Q)).
Proof.
  destruct entry as [x|]; cbn [numeric_field Py.get].
  - apply round3_to_3_decimals.
  - reflexivity.
Qed.

Lemma strip_text_field entry :
  text_field entry (Py.strip (Py.get entry "")).
Proof.
  destruct entry as [s|]; cbn [text_field Py.get].
  - apply strip_trimmed.
  - reflexivity.
Qed.

Lemma format_word_formatted raw : formatted_word raw (format_word raw).
Proof.
  unfold formatted_word, format_word. eexists _, _, _.
  split; [reflexivity|].
  split; [apply strip_text_field|].
  split; apply round3_numeric_field.
Qed.

(** C5.  [format_segment] returns a dictionary with the keys [id], [start],
    [end], [text] and [words]: the id is [seg_] and the index zero-padded to
    four digits, the numbers are rounded to three decimals and 0.0 when
    missing, the strings are trimmed and empty when missing, and so for every
    word. *)
Theorem format_segment_shape segment i :
  0 <= i ->
  exists id start end_ text words,
    format_segment segment i
    = JDict [("id", JStr id); ("start", JFloat start); ("end", JFloat end_);
             ("text", JStr text); ("words", JList words)]
    /\ is_segment_id i id
    /\ numeric_field (seg_start segment) start
    /\ numeric_field (seg_end segment) end_
    /\ text_field (seg_text segment) text
    /\ Forall2 formatted_word
         (match seg_words segment with Some ws => ws | None => [] end)
         words.
Proof.
  intros Hi. unfold format_segment. eexists _, _, _, _, _.
  split; [reflexivity|].
  split; [now apply format_04d_is_segment_id|].
  split; [apply round3_numeric_field|].
  split; [apply round3_numeric_field|].
  split; [apply strip_text_field|].
  destruct (seg_words segment) as [ws|]; [|constructor].
  induction ws as [|raw ws IH]; cbn [map]; constructor; auto.
  apply format_word_formatted.
Qed.

Lemma format_segment_shape_witness :
  exists id start end_ text words,
    format_segment
      {| seg_start := Some (61234 # 10000); seg_end := None;
         seg_text := Some "  hi there "; seg_words := None |} 7
    = JDict [("id", JStr id); ("start", JFloat start); ("end", JFloat end_);
             ("text", JStr text); ("words", JList words)]
    /\ id = "seg_0007" /\ start = (6123 # 1000) /\ end_ = (0 # 1000)
    /\ text = "hi there" /\ words = [].
Proof.
  destruct (format_segment_shape
              {| seg_start := Some (61234 # 10000); seg_end := None;
                 seg_text := Some "  hi there "; seg_words := None |} 7)
    as (id & start & end_ & text & words & E & _); [lia|].
  exists id, start, end_, text, words. split; [exact E|].
  vm_compute in E. injection E as <- <- <- <- <-.
  repeat split; reflexivity.
Defined.

(** ** The emitter and the dataclasses *)

(** X1.  [ProtocolEmitter.progress] prints one line whose percent is the
    argument brought into [0, 100]: unchanged inside the range, 0 below it
    and 100 above it.  The status is printed as given. *)
Theorem progress_percent_clamped percent status p :
  exists pc,
    emit_progress percent status p
    = (Ok tt, written [Line (progress_message pc status)] p)
    /\ 0 <= pc <= 100
    /\ (0 <= percent <= 100 -> pc = percent)
    /\ (percent < 0 -> pc = 0)
    /\ (100 < percent -> pc = 100).
Proof.
  exists (Z.max 0 (Z.min 100 percent)). split; [reflexivity|]. lia.
Qed.

Lemma round_half_even_integer (k : Z) (q : Q) :
  (q == inject_Z k)%Q -> Py.round_half_even q = k.
Proof.
  intros E. unfold Py.round_half_even.
  assert (F : Qfloor q = k) by (rewrite E; apply Qfloor_Z).
  rewrite F.
  assert (C : (q - inject_Z k ?= 1 # 2)%Q = Lt).
  { rewrite E. unfold Qminus. now rewrite Qplus_opp_r. }
  now rewrite C.
Qed.

Lemma round3_idempotent x : Py.round3 (Py.round3 x) = Py.round3 x.
Proof.
  unfold Py.round3 at 1 3.
  rewrite (round_half_even_integer (Py.round_half_even (x * 1000))); auto.
  unfold Py.round3, Qeq; simpl. lia.
Qed.

Lemma format_word_as_word word_data :
  format_word word_data = Word.to_dict (as_word word_data).
Proof. reflexivity. Qed.

(** X2.  The two ways to a [Segment] line agree.  The dictionary
    [format_segment] builds is the one [Segment.to_dict] builds from the
    dataclass holding the same segment, key for key and in the same order,
    so [emit_segment_dict] and [emit_segment] print the same line; and
    formatting rounds once and for all: the dataclass filled with the
    already rounded numbers gives that dictionary again. *)
Theorem dataclass_and_dict_paths_agree segment segment_index :
  format_segment segment segment_index
  = Segment.to_dict (as_segment segment segment_index)
  /\ (forall p,
        emit_segment_dict (format_segment segment segment_index) p
        = emit_segment (as_segment segment segment_index) p)
  /\ Segment.to_dict
       {| Segment.id := Segment.id (as_segment segment segment_index);
          Segment.start :=
            Py.round3 (Segment.start (as_segment segment segment_index));
          Segment.end_ :=
            Py.round3 (Segment.end_ (as_segment segment segment_index));
          Segment.text := Segment.text (as_segment segment segment_index);
          Segment.words :=
            map (fun w => {| Word.word := Word.word w;
                             Word.start := Py.round3 (Word.start w);
                             Word.end_ := Py.round3 (Word.end_ w) |})
              (Segment.words (as_segment segment segment_index)) |}
     = format_segment segment segment_index.
Proof.
  assert (E : format_segment segment segment_index
              = Segment.to_dict (as_segment segment segment_index)).
  { unfold format_segment, Segment.to_dict, as_segment.
    cbn [Segment.id Segment.start Segment.end_ Segment.text Segment.words].
    rewrite map_map. destruct (seg_words segment) as [ws|]; cbn [Py.get];
      [|reflexivity].
    repeat f_equal. }
  split; [exact E|]. split.
  - intros p. unfold emit_segment. now rewrite E.
  - rewrite E. unfold Segment.to_dict.
    cbn [Segment.id Segment.start Segment.end_ Segment.text Segment.words].
    rewrite !round3_idempotent, map_map.
    rewrite (map_ext _ Word.to_dict); [reflexivity|].
    intros w. unfold Word.to_dict.
    cbn [Word.word Word.start Word.end_]. now rewrite !round3_idempotent.
Qed.

(** ** The import of the libraries *)

Lemma importing_run {A : Type} (module : call A) p :
  importing module p =
  (match result_of module with
   | Returns a => Ok a
   | Fails msg => Raise (Py.Exception msg)
   | KeyboardInterrupted => Raise Py.KeyboardInterrupt
   end,
   written (map Text (noise module)) p).
Proof.
  unfold importing, bind. rewrite write_all_run.
  now destruct (result_of module).
Qed.

Lemma import_whisper_run (whisper_timestamped : call unit) p :
  import_whisper whisper_timestamped p =
  (match result_of whisper_timestamped with
   | Returns a => Ok a
   | Fails msg => Raise (Py.Exception msg)
   | KeyboardInterrupted => Raise Py.KeyboardInterrupt
   end,
   extended (sys_stdout p) [] (map Text (noise whisper_timestamped)) [] p).
Proof.
  unfold import_whisper, bind, get_sys_stdout, set_sys_stdout, try_finally.
  rewrite importing_run. destruct p as [w out err h].
  unfold extended, written, rebound. cbn. rewrite !app_nil_r.
  destruct (result_of whisper_timestamped); reflexivity.
Qed.

(** X3.  Whatever whisper-timestamped prints while it is imported lands on
    the standard error, none of it on the standard output, and [sys.stdout]
    is bound to what it was before the import, also when the import
    fails. *)
Theorem import_output_is_diverted (whisper_timestamped : call unit) p :
  let p' := snd (import_whisper whisper_timestamped p) in
  sys_stdout p' = sys_stdout p
  /\ stdout p' = stdout p
  /\ stderr p' = (stderr p ++ map Text (noise whisper_timestamped))%list
  /\ history p' = history p.
Proof.
  rewrite import_whisper_run. cbn. rewrite !app_nil_r. auto.
Qed.

(** ** Computations that only append *)

Lemma extended_nil p : extended (sys_stdout p) [] [] [] p = p.
Proof. destruct p. unfold extended. cbn. now rewrite !app_nil_r. Qed.

Lemma extended_extended w1 o e h w2 o' e' h' p :
  extended w2 o' e' h' (extended w1 o e h p)
  = extended w2 (o ++ o') (e ++ e') (h ++ h') p.
Proof. unfold extended. cbn. now rewrite !app_assoc. Qed.

Lemma appends_ret {A : Type} (a : A) : appends (ret a).
Proof.
  intros w0. exists (Ok a), w0, [], [], []. intros p <-.
  unfold ret. now rewrite extended_nil.
Qed.

Lemma appends_raise {A : Type} e : appends (@raise A e).
Proof.
  intros w0. exists (Raise e), w0, [], [], []. intros p <-.
  unfold raise. now rewrite extended_nil.
Qed.

Lemma appends_bind {A B : Type} (c : M A) (k : A -> M B) :
  appends c -> (forall a, appends (k a)) -> appends (bind c k).
Proof.
  intros Hc Hk w0. destruct (Hc w0) as (r & w1 & o & e & h & E).
  destruct r as [a | exc].
  - destruct (Hk a w1) as (r' & w2 & o' & e' & h' & E').
    exists r', w2, (o ++ o')%list, (e ++ e')%list, (h ++ h')%list.
    intros p Hp. unfold bind. rewrite (E p Hp).
    rewrite (E' (extended w1 o e h p) eq_refl).
    now rewrite extended_extended.
  - exists (Raise exc), w1, o, e, h. intros p Hp. unfold bind.
    now rewrite (E p Hp).
Qed.

Lemma appends_try_finally {A : Type} (body : M A) (cleanup : M unit) :
  appends body -> appends cleanup -> appends (try_finally body cleanup).
Proof.
  intros Hb Hc w0. destruct (Hb w0) as (r & w1 & o & e & h & E).
  destruct (Hc w1) as (r' & w2 & o' & e' & h' & E').
  exists (match r' with Ok _ => r | Raise x => Raise x end), w2,
    (o ++ o')%list, (e ++ e')%list, (h ++ h')%list.
  intros p Hp. unfold try_finally. rewrite (E p Hp).
  rewrite (E' (extended w1 o e h p) eq_refl), extended_extended.
  now destruct r'.
Qed.

Lemma appends_try_except {A : Type} (body : M A) handler :
  appends body ->
  (forall exc h, handler exc = Some h -> appends h) ->
  appends (try_except body handler).
Proof.
  intros Hb Hh w0. destruct (Hb w0) as (r & w1 & o & e & h & E).
  destruct r as [a | exc].
  - exists (Ok a), w1, o, e, h. intros p Hp. unfold try_except.
    now rewrite (E p Hp).
  - destruct (handler exc) as [hd|] eqn:Eh.
    + destruct (Hh exc hd Eh w1) as (r' & w2 & o' & e' & h' & E').
      exists r', w2, (o ++ o')%list, (e ++ e')%list, (h ++ h')%list.
      intros p Hp. unfold try_except. rewrite (E p Hp), Eh.
      rewrite (E' (extended w1 o e h p) eq_refl).
      now rewrite extended_extended.
    + exists (Raise exc), w1, o, e, h. intros p Hp. unfold try_except.
      now rewrite (E p Hp), Eh.
Qed.

Lemma appends_get_sys_stdout : appends get_sys_stdout.
Proof.
  intros w0. exists (Ok w0), w0, [], [], []. intros p <-.
  unfold get_sys_stdout. now rewrite extended_nil.
Qed.

Lemma appends_set_sys_stdout w : appends (set_sys_stdout w).
Proof.
  intros w0. exists (Ok tt), w, [], [], []. intros p _.
  unfold set_sys_stdout, rebound, extended. now rewrite !app_nil_r.
Qed.

Lemma appends_write c : appends (write c).
Proof.
  intros [|].
  - exists (Ok tt), OriginalStdout, [c], [], []. intros p Hp.
    unfold write, written, extended. rewrite Hp. now rewrite !app_nil_r.
  - exists (Ok tt), StderrRedirector, [], [c], []. intros p Hp.
    unfold write, written, extended. rewrite Hp. now rewrite !app_nil_r.
Qed.

Lemma appends_log site how : appends (log site how).
Proof.
  intros w0. exists (Ok tt), w0, [], [], [(site, how)]. intros p <-.
  unfold log, logged, extended. now rewrite !app_nil_r.
Qed.

Lemma appends_write_all texts : appends (write_all texts).
Proof.
  induction texts as [|t rest IH]; cbn [write_all].
  - apply appends_ret.
  - apply appends_bind; [apply appends_write | intros _; exact IH].
Qed.

Lemma appends_for_each {A : Type} (l : list A) (body : A -> M unit) :
  (forall a, appends (body a)) -> appends (for_each l body).
Proof.
  intros Hb. induction l as [|a rest IH]; cbn [for_each].
  - apply appends_ret.
  - apply appends_bind; [apply Hb | intros _; exact IH].
Qed.

Lemma appends_external {A : Type} site (c : call A) :
  appends (external site c).
Proof.
  unfold external. apply appends_bind; [apply appends_write_all|].
  intros _. destruct (result_of c);
    (apply appends_bind; [apply appends_log | intros _]);
    first [apply appends_ret | apply appends_raise].
Qed.

Lemma appends_importing {A : Type} (c : call A) : appends (importing c).
Proof.
  unfold importing. apply appends_bind; [apply appends_write_all|].
  intros _. destruct (result_of c);
    first [apply appends_ret | apply appends_raise].
Qed.

Ltac appending :=
  repeat first
    [ apply appends_ret
    | apply appends_raise
    | apply appends_get_sys_stdout
    | apply appends_set_sys_stdout
    | apply appends_write
    | apply appends_log
    | apply appends_write_all
    | apply appends_external
    | apply appends_importing
    | apply appends_try_finally
    | apply appends_bind; [|intros ?]
    | apply appends_for_each; intros [? ?]
    | match goal with
      | |- appends (if ?b then _ else _) => destruct b
      | |- appends (match ?d with Some _ => _ | None => _ end) => destruct d
      end ].

Lemma appends_transcribe_audio w audio_path model_size device :
  appends (transcribe_audio w audio_path model_size device).
Proof.
  unfold transcribe_audio. apply appends_try_except.
  - unfold transcribe_audio_body, get_audio_duration, sys_exit,
      emit_error, emit_progress, emit_complete, emit_segment_dict,
      ProtocolEmitter.error, ProtocolEmitter.progress,
      ProtocolEmitter.complete, ProtocolEmitter.segment_dict,
      ProtocolEmitter._emit.
    appending.
    apply appends_try_except; [appending|].
    intros exc h E. destruct exc; try discriminate.
    injection E as <-. appending.
  - intros exc h E. destruct exc; try discriminate; injection E as <-;
      unfold emit_error, ProtocolEmitter.error, ProtocolEmitter._emit,
        sys_exit; appending.
Qed.


(** X5.  The script as a whole.  When the import of whisper-timestamped
    fails, the script ends on that exception with nothing on the standard
    output, not even an [Error] message: the import is outside the [try] of
    [transcribe_audio].  When it succeeds, the standard output and the
    result are those of [transcribe_audio] alone, and what the import
    printed precedes the rest on the standard error. *)
Theorem failed_import_is_silent (whisper_timestamped : call unit) w args :
  match result_of whisper_timestamped with
  | Returns _ =>
      stdout (snd (engine_script whisper_timestamped w args boot))
      = protocol_stream w args
      /\ fst (engine_script whisper_timestamped w args boot)
         = fst (transcribe_audio w (arg_audio_path args) (arg_model args)
                  (arg_device args) boot)
      /\ stderr (snd (engine_script whisper_timestamped w args boot))
         = (map Text (noise whisper_timestamped)
            ++ stderr (snd (run w args)))%list
  | Fails msg =>
      fst (engine_script whisper_timestamped w args boot)
      = Raise (Py.Exception msg)
      /\ stdout (snd (engine_script whisper_timestamped w args boot)) = []
      /\ history (snd (engine_script whisper_timestamped w args boot)) = []
  | KeyboardInterrupted =>
      fst (engine_script whisper_timestamped w args boot)
      = Raise Py.KeyboardInterrupt
      /\ stdout (snd (engine_script whisper_timestamped w args boot)) = []
      /\ history (snd (engine_script whisper_timestamped w args boot)) = []
  end.
Proof.
  unfold engine_script, bind. rewrite import_whisper_run.
  destruct (result_of whisper_timestamped) as [[]| |];
    try (cbn; auto; fail).
  destruct (appends_transcribe_audio w (arg_audio_path args) (arg_model args)
              (arg_device args) OriginalStdout)
    as (r & w1 & o & e & h & E).
  unfold protocol_stream, run, main.
  rewrite (E boot eq_refl), (E (extended _ _ _ _ boot) eq_refl).
  destruct r as [[] | [msg | | code]]; cbn; auto.
Qed.

(** ** The choice of the device *)

Lemma agree_refl p : agree p p.
Proof. repeat split. Qed.

Lemma appends_agree {A : Type} (c : M A) :
  appends c -> forall p q, agree p q -> same_outcome (c p) (c q).
Proof.
  intros Hc p q (Hw & Hl & He).
  destruct (Hc (sys_stdout p)) as (r & w1 & o & e & h & E).
  rewrite (E p eq_refl), (E q (eq_sym Hw)).
  repeat split; cbn; rewrite ?lines_app; congruence.
Qed.

Lemma try_except_same {A : Type} (body1 body2 : M A) handler p :
  same_outcome (body1 p) (body2 p) ->
  (forall exc h, handler exc = Some h -> appends h) ->
  same_outcome (try_except body1 handler p) (try_except body2 handler p).
Proof.
  intros [Hr Hp] Hh. unfold try_except.
  destruct (body1 p) as [r1 p1], (body2 p) as [r2 p2]. cbn [fst snd] in *.
  subst r2. destruct r1 as [a | exc]; [split; [reflexivity | exact Hp]|].
  destruct (handler exc) as [h|] eqn:Eh; [|split; [reflexivity | exact Hp]].
  apply appends_agree; [exact (Hh exc h Eh) | assumption].
Qed.

Lemma keeps_ret {A : Type} (a : A) : keeps_writer (ret a).
Proof. intros p. reflexivity. Qed.

Lemma keeps_raise {A : Type} e : keeps_writer (@raise A e).
Proof. intros p. reflexivity. Qed.

Lemma keeps_bind {A B : Type} (c : M A) (k : A -> M B) :
  keeps_writer c -> (forall a, keeps_writer (k a)) -> keeps_writer (bind c k).
Proof.
  intros Hc Hk p. unfold bind. specialize (Hc p).
  destruct (c p) as [[a | e] p']; cbn [snd] in *; [|exact Hc].
  now rewrite Hk.
Qed.

Lemma keeps_try_except {A : Type} (body : M A) handler :
  keeps_writer body ->
  (forall exc h, handler exc = Some h -> keeps_writer h) ->
  keeps_writer (try_except body handler).
Proof.
  intros Hb Hh p. unfold try_except. specialize (Hb p).
  destruct (body p) as [[a | exc] p']; cbn [snd] in *; [exact Hb|].
  destruct (handler exc) as [h|] eqn:Eh; [|exact Hb].
  now rewrite (Hh exc h Eh).
Qed.

Lemma keeps_write c : keeps_writer (write c).
Proof. intros p. unfold write, written. now destruct (sys_stdout p). Qed.

Lemma keeps_external {A : Type} site (c : call A) :
  keeps_writer (external site c).
Proof.
  intros p. rewrite external_run.
  destruct (result_of c); unfold logged, written;
    now destruct (sys_stdout p).
Qed.

Ltac keeping :=
  unfold get_audio_duration, sys_exit, emit_error, emit_progress,
    ProtocolEmitter.error, ProtocolEmitter.progress, ProtocolEmitter._emit;
  repeat first
    [ apply keeps_ret
    | apply keeps_raise
    | apply keeps_write
    | apply keeps_external
    | apply keeps_bind; [|intros ?]
    | apply keeps_try_except;
      [|let e := fresh "e" in
        let E := fresh "E" in
        intros e ? E; destruct e; try discriminate E;
        injection E as <-]
    | match goal with
      | |- keeps_writer (if ?b then _ else _) => destruct b
      end ].

Lemma bind_same_keeping {A B : Type} (c : M A) (k1 k2 : A -> M B) p :
  keeps_writer c ->
  (forall a p', sys_stdout p' = sys_stdout p ->
                same_outcome (k1 a p') (k2 a p')) ->
  same_outcome (bind c k1 p) (bind c k2 p).
Proof.
  intros Hc H. unfold bind. specialize (Hc p).
  destruct (c p) as [[a | e] p']; cbn [snd] in Hc; [now apply H|].
  split; [reflexivity | apply agree_refl].
Qed.

Lemma autodetection_same_outcome w audio_path model_size cuda p :
  sys_stdout p = OriginalStdout ->
  result_of (cuda_is_available w) = Returns cuda ->
  same_outcome
    (transcribe_audio w audio_path model_size None p)
    (transcribe_audio w audio_path model_size
       (Some (if cuda then "cuda" else "cpu")) p).
Proof.
  intros Hp Hcuda. unfold transcribe_audio. apply try_except_same.
  - unfold transcribe_audio_body.
    do 5 (apply bind_same_keeping; [keeping|];
          let H := fresh "Hw" in intros ? ? H; rewrite Hp in H;
          clear Hp; rename H into Hp).
    unfold bind at 1 2 4. rewrite external_run, Hcuda. unfold ret at 1 2.
    cbv beta iota.
    apply appends_agree.
    + unfold sys_exit, emit_error, emit_progress, emit_complete,
        emit_segment_dict, ProtocolEmitter.error, ProtocolEmitter.progress,
        ProtocolEmitter.complete, ProtocolEmitter.segment_dict,
        ProtocolEmitter._emit.
      appending.
    + unfold agree, logged, written. rewrite Hp. cbn.
      rewrite lines_app, lines_texts, app_nil_r. auto.
  - intros exc h E. destruct exc; try discriminate; injection E as <-;
      unfold emit_error, ProtocolEmitter.error, ProtocolEmitter._emit,
        sys_exit; appending.
Qed.

(** X6.  Leaving the device out is the same as naming the device the
    detection picks: when [torch.cuda.is_available()] returns, the run
    prints the same messages, leaves the same standard error and exits
    with the same status as the run given ["cuda"] or ["cpu"]
    accordingly. *)
Theorem autodetection_is_the_explicit_device w audio_path model_size cuda :
  result_of (cuda_is_available w) = Returns cuda ->
  let detected :=
    {| arg_audio_path := audio_path; arg_model := model_size;
       arg_device := None |} in
  let explicit :=
    {| arg_audio_path := audio_path; arg_model := model_size;
       arg_device := Some (if cuda then "cuda" else "cpu") |} in
  messages w detected = messages w explicit
  /\ exit_code w detected = exit_code w explicit
  /\ stderr (snd (run w detected)) = stderr (snd (run w explicit)).
Proof.
  intros Hcuda. cbv zeta.
  destruct (autodetection_same_outcome w audio_path model_size cuda boot
              eq_refl Hcuda) as (Hr & _ & Hl & He).
  unfold messages, protocol_stream, exit_code, run, main.
  cbn [arg_audio_path arg_model arg_device].
  destruct (transcribe_audio w audio_path model_size None boot)
    as [r1 p1].
  destruct (transcribe_audio w audio_path model_size
              (Some (if cuda then "cuda" else "cpu")) boot) as [r2 p2].
  cbn [fst snd] in *. subst r2.
  destruct r1 as [[] | [msg | | code]]; cbn [fst snd]; auto.
Qed.

Lemma autodetection_is_the_explicit_device_witness :
  messages studio
    {| arg_audio_path := "clip.wav"; arg_model := "tiny";
       arg_device := None |}
  = messages studio clip.
Proof.
  destruct (autodetection_is_the_explicit_device studio "clip.wav" "tiny"
              false) as [H _]; [reflexivity|].
  exact H.
Defined.

(** ** The duration probe, continued *)

(** X7.  [get_audio_duration] never raises an [Exception] and never returns
    a negative duration.  It returns 0 exactly when the audio could not be
    loaded or has no samples; only the user's interrupt gets through it. *)
Theorem audio_duration_is_never_negative w audio_path p :
  match fst (get_audio_duration w audio_path p) with
  | Ok d =>
      (0 <= d)%Q
      /\ ((d == 0)%Q <->
          (exists str_e, result_of (probe_audio w audio_path) = Fails str_e)
          \/ result_of (probe_audio w audio_path) = Returns [])
  | Raise e =>
      e = Py.KeyboardInterrupt
      /\ result_of (probe_audio w audio_path) = KeyboardInterrupted
  end.
Proof.
  rewrite get_audio_duration_run.
  destruct (result_of (probe_audio w audio_path)) as [audio | str_e |];
    cbn [fst].
  - split.
    + unfold Qle; simpl. lia.
    + split.
      * intros E. right. f_equal. unfold Qeq in E; simpl in E.
        destruct audio; [reflexivity | simpl in E; lia].
      * intros [[str_e E] | E]; [discriminate|].
        injection E as ->. reflexivity.
  - split; [discriminate|]. split; [eauto | reflexivity].
  - auto.
Qed.

(** ** The progress callback, continued *)

(** X8.  A callback whose total duration is not above 0 (zero, negative or
    a NaN) does nothing, whatever positions it is given: no line, no
    exception, no change of its state. *)
Theorem callback_without_duration_is_inert self signal p :
  (0 <? total_duration self)%float = false ->
  Callback.feed self signal p = (Ok self, p).
Proof.
  intros H. induction signal as [|current rest IH]; [reflexivity|].
  cbn [Callback.feed]. unfold bind, Callback.__call__ at 1. rewrite H.
  unfold ret at 1. exact IH.
Qed.

Lemma callback_without_duration_is_inert_witness :
  Callback.feed (Callback.__init__ 0) [1; 2; 3]%float boot
  = (Ok (Callback.__init__ 0), boot)
  /\ Callback.feed (Callback.__init__ nan) [1; 2; 3]%float boot
     = (Ok (Callback.__init__ nan), boot).
Proof.
  split; apply callback_without_duration_is_inert; reflexivity.
Defined.

Lemma increasing_length (l : list Z) :
  Sorted Z.lt l ->
  forall a b,
    Forall (fun x => a < x <= b) l ->
    Z.of_nat (length l) <= Z.max 0 (b - a).
Proof.
  intros S. apply Sorted_StronglySorted in S; [|exact Z.lt_trans].
  induction S as [|x l S IH Hx]; intros a b F; [simpl; lia|].
  inversion F as [|? ? Hax Fl]; subst. cbn [length].
  assert (Fx : Forall (fun y => x < y <= b) l).
  { rewrite Forall_forall in *. intros y Hy.
    specialize (Hx y Hy). specialize (Fl y Hy). lia. }
  specialize (IH x b Fx). lia.
Qed.

(** X9.  However long the signal, a callback prints at most 99 lines in its
    life, and at most [99 - k] once it has printed the percent [k]. *)
Theorem callback_emits_at_most_99_messages self signal p :
  0 <= last_percent self ->
  exists emitted,
    stdout (snd (Callback.feed self signal
                   {| sys_stdout := OriginalStdout; stdout := stdout p;
                      stderr := stderr p; history := history p |}))
    = (stdout p ++ map (fun pc => Line (transcribing_message pc)) emitted)%list
    /\ Z.of_nat (length emitted) <= Z.max 0 (99 - last_percent self).
Proof.
  intros Hlast.
  destruct (feed_prints_increasing signal self
              {| sys_stdout := OriginalStdout; stdout := stdout p;
                 stderr := stderr p; history := history p |} Hlast)
    as (emitted & E & F & S).
  exists emitted. rewrite E. split; [reflexivity|].
  now apply increasing_length.
Qed.

Lemma callback_emits_at_most_99_messages_witness :
  exists emitted,
    stdout (snd (Callback.feed (Callback.__init__ 10)
                   [1; 0.5; 5.5; -3; 20]%float boot))
    = map (fun pc => Line (transcribing_message pc)) emitted
    /\ Z.of_nat (length emitted) <= 99.
Proof.
  destruct (callback_emits_at_most_99_messages (Callback.__init__ 10)
              [1; 0.5; 5.5; -3; 20]%float boot) as (emitted & E & H);
    [cbn; lia|].
  exists emitted. split; [exact E | exact H].
Defined.

(** X10.  When the product [(current_time / total_duration) * 100] is an
    infinity or a NaN, the call raises, [OverflowError] or [ValueError],
    before anything is printed. *)
Theorem callback_raises_on_a_non_finite_product self current_time p :
  (0 <? total_duration self)%float = true ->
  Py.exact ((current_time / total_duration self) * 100)%float = None ->
  exists str_e,
    Callback.__call__ self current_time p = (Raise (Py.Exception str_e), p).
Proof.
  intros Htotal Hproduct. unfold Callback.__call__. rewrite Htotal.
  unfold bind at 1, int. rewrite Hproduct.
  destruct (is_nan _); eexists; reflexivity.
Qed.

Lemma callback_raises_on_a_non_finite_product_witness :
  (exists str_e,
      Callback.__call__ (Callback.__init__ 0.5) 0x1p1023 boot
      = (Raise (Py.Exception str_e), boot))
  /\ (exists str_e,
        Callback.__call__ (Callback.__init__ 10) nan boot
        = (Raise (Py.Exception str_e), boot)).
Proof.
  split; apply callback_raises_on_a_non_finite_product; reflexivity.
Defined.

Lemma call_run self current_time p :
  Callback.__call__ self current_time p
  = if (0 <? total_duration self)%float
    then
      match Py.exact ((current_time / total_duration self) * 100)%float with
      | Some product =>
          let percent := Z.min (Py.truncate product) 99 in
          if percent >? last_percent self
          then (Ok {| total_duration := total_duration self;
                      last_percent := percent |},
                written
                  [Line (progress_message (Z.max 0 (Z.min 100 percent))
                           ("Transcribing... " ++ Py.str_of_int percent
                            ++ "%"))] p)
          else (Ok self, p)
      | None =>
          (Raise (Py.Exception
                    (if PrimFloat.is_nan
                          ((current_time / total_duration self) * 100)%float
                     then "cannot convert float NaN to integer"
                     else "cannot convert float infinity to integer")), p)
      end
    else (Ok self, p).
Proof.
  unfold Callback.__call__.
  destruct (0 <? total_duration self)%float; [|reflexivity].
  unfold bind at 1, int.
  destruct (Py.exact (current_time / total_duration self * 100)%float).
  - unfold ret at 1. cbv beta iota zeta.
    destruct (Z.min (Py.truncate q) 99 >? last_percent self); reflexivity.
  - destruct (is_nan _); reflexivity.
Qed.

(** X11.  A position reported twice in a row is printed at most once: the
    second call finds the percent already recorded and stays silent. *)
Theorem callback_repeated_position_is_silent self current_time p :
  Callback.feed self [current_time; current_time] p
  = Callback.feed self [current_time] p.
Proof.
  cbn [Callback.feed]. unfold bind. rewrite (call_run self).
  destruct (0 <? total_duration self)%float eqn:Htotal.
  - destruct (Py.exact (current_time / total_duration self * 100)%float)
      as [product|] eqn:Hproduct; [|reflexivity].
    cbv zeta.
    destruct (Z.min (Py.truncate product) 99 >? last_percent self) eqn:C.
    + rewrite call_run. cbn [total_duration last_percent].
      rewrite Htotal, Hproduct. cbv zeta.
      now rewrite Z.gtb_ltb, Z.ltb_irrefl.
    + rewrite call_run, Htotal, Hproduct. cbv zeta. now rewrite C.
  - now rewrite call_run, Htotal.
Qed.

(** ** What reaches the two streams *)

(** X12.  No protocol message is ever printed on the standard error: what a
    run leaves there is text of the libraries only. *)
Theorem no_protocol_line_on_stderr w args :
  lines (stderr (snd (run w args))) = []
  /\ exists texts, stderr (snd (run w args)) = map Text texts.
Proof.
  destruct args as [path size dev].
  execute.
  all: split; [read_stream; reflexivity|].
  all: cbn [app]; rewrite <- ?map_app; eexists; try reflexivity.
  all: now instantiate (1 := []).
Qed.

Lemma only_lines_app a b :
  a = map Line (lines a) -> b = map Line (lines b) ->
  (a ++ b)%list = map Line (lines (a ++ b)).
Proof. intros Ha Hb. rewrite lines_app, map_app. congruence. Qed.

Lemma only_lines_cons m l :
  l = map Line (lines l) -> Line m :: l = map Line (lines (Line m :: l)).
Proof. intros H. cbn [lines map]. now rewrite <- H. Qed.

Lemma only_lines_map ms : map Line ms = map Line (lines (map Line ms)).
Proof. now rewrite lines_map_Line. Qed.

(** X13.  What [whisper.load_model] and [whisper.transcribe] print never
    reaches the standard output: when the other three calls print nothing,
    the standard output holds protocol lines only. *)
Theorem library_noise_is_kept_off_stdout w args :
  noise (probe_audio w (arg_audio_path args)) = [] ->
  noise (cuda_is_available w) = [] ->
  noise (load_audio w (arg_audio_path args)) = [] ->
  protocol_stream w args = map Line (messages w args).
Proof.
  destruct args as [path size dev]. cbn [arg_audio_path].
  intros Hprobe Hcuda Haudio.
  execute.
  all: rewrite ?Hprobe, ?Hcuda, ?Haudio; cbn [map app]; rewrite ?app_nil_r.
  all: repeat first [ reflexivity
                    | apply only_lines_map
                    | apply only_lines_cons
                    | apply only_lines_app ].
Qed.

Lemma library_noise_is_kept_off_stdout_witness :
  protocol_stream studio clip = map Line (messages studio clip).
Proof.
  apply (library_noise_is_kept_off_stdout studio clip); reflexivity.
Defined.



(** ** Segment ids *)

Lemma format_04d_value i : 0 <= i -> decimal_value (Py.format_04d i) = i.
Proof.
  intros Hi. destruct (format_04d_is_segment_id i Hi) as (ds & E & _ & V & _).
  cbn [append] in E. injection E as E. now rewrite E.
Qed.

Lemma segment_ids_app a b :
  segment_ids (a ++ b) = (segment_ids a ++ segment_ids b)%list.
Proof.
  induction a as [|m a IH]; simpl; auto.
  destruct (is_segment m); auto.
  destruct (field "data" m) as [d|]; auto.
  destruct (field "id" d) as [[]|]; simpl; now rewrite ?IH.
Qed.

Lemma ids_of_segments segments :
  forall start,
    segment_ids (segment_messages_from start segments)
    = map (fun k => "seg_" ++ Py.format_04d (start + Z.of_nat k))
        (seq 0 (length segments)).
Proof.
  unfold segment_messages_from.
  induction segments as [|s rest IH]; intro start; [reflexivity|].
  cbn [enumerate_from map length seq]. simpl segment_ids.
  rewrite IH, <- seq_shift, map_map. f_equal.
  - now rewrite Z.add_0_r.
  - apply map_ext. intros k. do 2 f_equal. lia.
Qed.

Lemma sequential_ids_NoDup n :
  forall start, 0 <= start ->
  NoDup (map (fun k => "seg_" ++ Py.format_04d (start + Z.of_nat k)) (seq 0 n)).
Proof.
  intros start Hstart.
  apply NoDup_map_NoDup_ForallPairs; [|apply seq_NoDup].
  intros j k _ _ E. cbn [append] in E. injection E as E.
  apply (f_equal decimal_value) in E.
  rewrite !format_04d_value in E by lia. lia.
Qed.

(** X15.  The ids of the [Segment] messages of a run are [seg_0000],
    [seg_0001], ... in the order of emission, numbered from 0 without a
    gap, and no id occurs twice, also past [seg_9999]. *)
Theorem segment_ids_are_sequential w args :
  segment_ids (messages w args)
  = map (fun k => "seg_" ++ Py.format_04d (Z.of_nat k))
      (seq 0 (length (segment_ids (messages w args))))
  /\ NoDup (segment_ids (messages w args)).
Proof.
  assert (H : exists n, segment_ids (messages w args)
                        = map (fun k => "seg_" ++ Py.format_04d (0 + Z.of_nat k))
                            (seq 0 n)).
  { destruct (run_shapes w args)
      as [ | how Hhow | k e h [H1 H2] Hh | k h [H1 H2] Hh | segs lang dur h Hh].
    - exists 0%nat. reflexivity.
    - exists 0%nat. reflexivity.
    - exists 0%nat.
      assert (C : k = 2%nat \/ k = 3%nat) by lia.
      destruct C as [-> | ->]; reflexivity.
    - exists 0%nat.
      assert (C : k = 1%nat \/ k = 2%nat \/ k = 3%nat) by lia.
      destruct C as [-> | [-> | ->]]; reflexivity.
    - exists (length segs). cbn [stage_progress app].
      change (?a :: ?b :: ?c :: ?d :: ?l)%list with ([a; b; c; d] ++ l)%list.
      rewrite !segment_ids_app, ids_of_segments. cbn [segment_ids app].
      simpl. now rewrite app_nil_r. }
  destruct H as [n E]. rewrite E. rewrite length_map, length_seq. split.
  - reflexivity.
  - apply sequential_ids_NoDup. lia.
Qed.

(** ** Rounding, continued *)

Lemma round3_zero : Py.round3 0 = (0 # 1000).
Proof. reflexivity. Qed.

Lemma round3_nonneg x : (0 <= x)%Q -> (0 <= Py.round3 x)%Q.
Proof.
  intros H. apply round3_monotone in H. rewrite round3_zero in H.
  unfold Qle in *; simpl in *. lia.
Qed.

(** X16.  Rounding keeps a span well formed: a segment that starts at or
    after 0 and does not end before it starts is formatted with
    [0 <= start <= end], and with [start < end] when the span is longer
    than a thousandth of a second. *)
Theorem rounding_keeps_spans_well_formed segment i a b :
  seg_start segment = Some a -> seg_end segment = Some b ->
  (0 <= a)%Q -> (a <= b)%Q ->
  exists start end_,
    field "start" (format_segment segment i) = Some (JFloat start)
    /\ field "end" (format_segment segment i) = Some (JFloat end_)
    /\ (0 <= start)%Q /\ (start <= end_)%Q
    /\ (a < b - (1 # 1000) -> start < end_)%Q.
Proof.
  intros Ha Hb H0 Hab. unfold format_segment. rewrite Ha, Hb.
  eexists _, _. split; [reflexivity|]. split; [reflexivity|].
  cbn [Py.get]. split; [now apply round3_nonneg|].
  split; [now apply round3_monotone|].
  intros Hgap.
  destruct (round3_to_3_decimals a) as [_ Ea].
  destruct (round3_to_3_decimals b) as [_ Eb].
  apply Qabs_Qle_condition in Ea, Eb. lra.
Qed.

Lemma rounding_keeps_spans_well_formed_witness :
  exists start end_,
    field "start"
      (format_segment
         {| seg_start := Some (1 # 4); seg_end := Some (5 # 4);
            seg_text := None; seg_words := None |} 0) = Some (JFloat start)
    /\ field "end"
         (format_segment
            {| seg_start := Some (1 # 4); seg_end := Some (5 # 4);
               seg_text := None; seg_words := None |} 0) = Some (JFloat end_)
    /\ (0 <= start)%Q /\ (start <= end_)%Q.
Proof.
  destruct (rounding_keeps_spans_well_formed
              {| seg_start := Some (1 # 4); seg_end := Some (5 # 4);
                 seg_text := None; seg_words := None |} 0 (1 # 4) (5 # 4))
    as (start & end_ & E1 & E2 & H1 & H2 & _);
    try reflexivity; try discriminate.
  exists start, end_. auto.
Defined.

(** ** The terminal message, continued *)



(** X18.  The text of a library's exception is the text of the [Error]
    message: when [whisper.load_model] or [whisper.transcribe] raises, the
    run prints the stages announced so far, then one [Error] message that
    carries [str(e)] unchanged, and exits with 1. *)
Theorem runtime_error_carries_the_exception_text w args device probed str_e :
  path_exists w (arg_audio_path args) = true ->
  result_of (probe_audio w (arg_audio_path args)) = Returns probed ->
  probed <> [] ->
  arg_device args = Some device ->
  (result_of (load_model w (arg_model args) device) = Fails str_e ->
   messages w args
   = [progress_message 5 "Loading audio file...";
      progress_message 10 ("Loading Whisper " ++ arg_model args ++ " model...");
      error_message str_e]
   /\ exit_code w args = 1)
  /\ (forall model audio,
        result_of (load_model w (arg_model args) device) = Returns model ->
        result_of (load_audio w (arg_audio_path args)) = Returns audio ->
        result_of (transcribe w model audio) = Fails str_e ->
        messages w args
        = (stage_progress (arg_model args) ++ [error_message str_e])%list
        /\ exit_code w args = 1).
Proof.
  destruct args as [path size dev].
  cbn [arg_audio_path arg_model arg_device].
  intros Hex Hprobe Hne -> .
  assert (Hdur : Qle_bool (Z.of_nat (length probed) # 16000) 0 = false).
  { destruct probed as [|x rest]; [congruence|].
    destruct (Qle_bool _ _) eqn:E; [|reflexivity].
    apply Qle_bool_iff in E. unfold Qle in E. cbn [length] in E.
    simpl in E. lia. }
  split.
  - intros Hload. unfold_engine. rewrite Hex. unfold_engine.
    rewrite external_run, Hprobe. unfold_engine. rewrite Hdur. unfold_engine.
    rewrite external_run, Hload. unfold_engine.
    read_stream. split; reflexivity.
  - intros model audio Hload Haudio Htrans. unfold_engine. rewrite Hex.
    unfold_engine.
    rewrite external_run, Hprobe. unfold_engine. rewrite Hdur. unfold_engine.
    rewrite external_run, Hload. unfold_engine.
    rewrite external_run, Haudio. unfold_engine.
    rewrite external_run, Htrans. unfold_engine.
    read_stream. split; reflexivity.
Qed.

Lemma runtime_error_carries_the_exception_text_witness :
  messages broken_model clip
  = [progress_message 5 "Loading audio file...";
     progress_message 10 "Loading Whisper tiny model...";
     error_message "CUDA out of memory"]
  /\ exit_code broken_model clip = 1.
Proof.
  destruct (runtime_error_carries_the_exception_text broken_model clip "cpu"
              [0%Q; 0%Q] "CUDA out of memory")
    as [H _]; try reflexivity.
  - discriminate.
  - apply H. reflexivity.
Defined.

(** ** The build script *)

Lemma lower_char_idempotent c : lower_char (lower_char c) = lower_char c.
Proof. destruct c as [[] [] [] [] [] [] [] []]; reflexivity. Qed.

Lemma lower_idempotent s : lower (lower s) = lower s.
Proof.
  induction s as [|c s IH]; [reflexivity|].
  cbn [lower]. now rewrite lower_char_idempotent, IH.
Qed.

(** X19.  [get_platform_suffix] does not look at the case of what the
    platform reports.  On macOS and on Linux it always names a target,
    [x86_64] for every machine that is not [arm64] or [aarch64]; it gives
    ["unknown"] exactly for a system other than Windows, macOS and Linux,
    and on Windows for a machine that is none of [amd64], [x86_64],
    [arm64], [aarch64]. *)
Theorem platform_suffix_is_unknown_only_off_the_list system machine :
  get_platform_suffix (lower system) (lower machine)
  = get_platform_suffix system machine
  /\ (get_platform_suffix system machine = "unknown" <->
      (lower system <> "windows" /\ lower system <> "darwin"
       /\ lower system <> "linux")
      \/ (lower system = "windows"
          /\ lower machine <> "amd64" /\ lower machine <> "x86_64"
          /\ lower machine <> "arm64" /\ lower machine <> "aarch64"))
  /\ (lower system = "darwin" \/ lower system = "linux" ->
      lower machine <> "arm64" -> lower machine <> "aarch64" ->
      get_platform_suffix system machine
      = "x86_64-" ++ (if String.eqb (lower system) "darwin"
                      then "apple-darwin" else "unknown-linux-gnu"))
  /\ get_platform_suffix "Windows" "AMD64" = "x86_64-pc-windows-msvc"
  /\ get_platform_suffix "Linux" "riscv64" = "x86_64-unknown-linux-gnu".
Proof.
  split.
  { unfold get_platform_suffix. now rewrite !lower_idempotent. }
  split; [|split; [|split; reflexivity]].
  - unfold get_platform_suffix. cbv zeta.
    destruct (String.eqb_spec (lower system) "windows") as [Ew | Ew];
      [|destruct (String.eqb_spec (lower system) "darwin") as [Ed | Ed];
        [|destruct (String.eqb_spec (lower system) "linux") as [El | El]]].
    all: destruct (String.eqb_spec (lower machine) "amd64") as [M1 | M1];
      destruct (String.eqb_spec (lower machine) "x86_64") as [M2 | M2];
      destruct (String.eqb_spec (lower machine) "arm64") as [M3 | M3];
      destruct (String.eqb_spec (lower machine) "aarch64") as [M4 | M4];
      cbn [orb].
    all: split;
      [ intros H; try discriminate H; auto;
        try (right; repeat split; assumption)
      | intros [(H1 & H2 & H3) | (H1 & H2 & H3 & H4 & H5)];
        try reflexivity; congruence ].
  - unfold get_platform_suffix. cbv zeta. intros Hs M3 M4.
    destruct (String.eqb_spec (lower machine) "arm64"); [contradiction|].
    destruct (String.eqb_spec (lower machine) "aarch64"); [contradiction|].
    destruct Hs as [-> | ->]; reflexivity.
Qed.
